(** * RepoInsights: the GitHub contributor service, the server action and the
    repository-name normalisation of the form.

    Shallow embedding of [src/src/services/github.ts], [src/src/app/actions.ts]
    and the repository handling of [src/src/app/page.tsx].

    Modelling conventions:
    - decoded JSON payloads are the inductive [json]; JSON numbers are
      integers ([Z]), strings are [String.string] (8-bit characters);
    - a JS property read [v.k] on a decoded payload is [get_prop]: it throws a
      [TypeError] on [null], reads an own property (an object's field, the
      last duplicate winning as in [JSON.parse]; an array's or a string's
      [length] and indices), then a method inherited from the value's
      prototype chain (a truthy function value [JFun]), and gives
      [undefined] ([None]) otherwise;
    - thrown exceptions are [Throw] of the pure error monad [Res]; the
      effectful code runs in [M], a state-and-error monad whose state is the
      list of URLs requested so far, in the order the [fetch] calls are
      issued;
    - the network is a function [net] from a URL and the value of the
      [Authorization] header to a response, [None] when [fetch] rejects;
    - [Date.prototype.toLocaleTimeString] depends on the runtime's locale
      and time zone: it is the parameter [toLocaleTimeString]. *)

From Stdlib Require Import String Ascii List ZArith Bool Lia Permutation.
Import ListNotations.
Open Scope string_scope.

(** ** JSON values and JavaScript semantics of property access *)

#[local] Set Warnings "-register-all".

Inductive json : Type :=
| JNull
| JBool (b : bool)
| JNum (n : Z)
| JStr (s : string)
| JArr (xs : list json)
| JObj (fields : list (string * json))
| JFun.          (* a built-in method reached through a prototype; never
                    produced by [JSON.parse] *)

Inductive exn : Type :=
| ErrorMsg (msg : string)   (* new Error(msg) *)
| SyntaxError               (* Response.json() on a body that is not JSON *)
| TypeError.                (* property read on null, call of a non-function *)

Inductive Res (A : Type) : Type :=
| Throw (e : exn)
| Ok (a : A).
Arguments Throw {A} e.
Arguments Ok {A} a.

Definition res_bind {A B} (m : Res A) (k : A -> Res B) : Res B :=
  match m with
  | Throw e => Throw e
  | Ok a => k a
  end.

Notation "'let*' x ':=' m 'in' k" := (res_bind m (fun x => k))
  (at level 200, x name, m at level 100, k at level 200).

(** Field of an object; duplicate keys: the last one wins. *)
Fixpoint obj_get (fs : list (string * json)) (k : string) : option json :=
  match fs with
  | [] => None
  | (k', v) :: rest =>
      match obj_get rest k with
      | Some w => Some w
      | None => if String.eqb k k' then Some v else None
      end
  end.

Definition truthy_json (v : json) : bool :=
  match v with
  | JNull => false
  | JBool b => b
  | JNum n => negb (Z.eqb n 0)
  | JStr s => negb (String.eqb s "")
  | JArr _ | JObj _ | JFun => true
  end.

(** Truthiness of a possibly [undefined] value. *)
Definition truthy (v : option json) : bool :=
  match v with
  | None => false
  | Some j => truthy_json j
  end.

(** [v || d] *)
Definition js_or (v : option json) (d : json) : json :=
  match v with
  | Some j => if truthy_json j then j else d
  | None => d
  end.

(** [v === s] for a string [s]. *)
Definition strict_eq_str (v : option json) (s : string) : bool :=
  match v with
  | Some (JStr s') => String.eqb s' s
  | _ => false
  end.

(** ** Decimal numbers as strings *)

Definition digit_char (d : nat) : ascii := ascii_of_nat (48 + d).

Fixpoint dec_aux (fuel : nat) (n : Z) (acc : string) : string :=
  match fuel with
  | O => acc
  | S fuel' =>
      let acc' := String (digit_char (Z.to_nat (n mod 10))) acc in
      if Z.ltb n 10 then acc' else dec_aux fuel' (n / 10) acc'
  end.

(** [String(z)] for an integer (a number has at most as many decimal digits
    as bits). *)
Definition dec_of_Z (z : Z) : string :=
  let fuel := S (Z.to_nat (Z.log2 (Z.abs z))) in
  if Z.ltb z 0 then String "-" (dec_aux fuel (- z) "")
  else dec_aux fuel z "".

(** [String(n)] for a natural number. *)
Definition dec_of_nat (n : nat) : string := dec_of_Z (Z.of_nat n).

Definition is_digit (c : ascii) : bool :=
  let n := nat_of_ascii c in Nat.leb 48 n && Nat.leb n 57.

Definition digit_val (c : ascii) : Z := Z.of_nat (nat_of_ascii c - 48).

(** Whitespace skipped by [parseInt] (the 8-bit part of StrWhiteSpaceChar). *)
Definition is_js_space (c : ascii) : bool :=
  match nat_of_ascii c with
  | 9 | 10 | 11 | 12 | 13 | 32 | 160 => true
  | _ => false
  end.

Fixpoint skip_space (s : string) : string :=
  match s with
  | String c r => if is_js_space c then skip_space r else s
  | EmptyString => s
  end.

(** Longest prefix of decimal digits, read as a number: [(value, count)]. *)
Fixpoint read_digits (s : string) (acc : Z) (cnt : nat) : Z * nat :=
  match s with
  | String c r =>
      if is_digit c then read_digits r (acc * 10 + digit_val c) (S cnt)
      else (acc, cnt)
  | EmptyString => (acc, cnt)
  end.

(** [parseInt(s, 10)]; [None] is [NaN]. *)
Definition parseInt10 (s : string) : option Z :=
  let s1 := skip_space s in
  let '(sign, s2) :=
    match s1 with
    | String c r =>
        if Ascii.eqb c "-" then (-1, r)
        else if Ascii.eqb c "+" then (1, r) else (1, s1)
    | EmptyString => (1, s1)
    end%Z in
  let '(v, cnt) := read_digits s2 0%Z O in
  match cnt with
  | O => None
  | _ => Some (sign * v)%Z
  end.

(** ASCII case folding: header names are byte strings, and [Headers]
    lower-cases them byte-wise. *)
Definition lower_ascii (c : ascii) : ascii :=
  let n := nat_of_ascii c in
  if Nat.leb 65 n && Nat.leb n 90 then ascii_of_nat (n + 32) else c.

Definition upper_ascii (c : ascii) : ascii :=
  let n := nat_of_ascii c in
  if Nat.leb 97 n && Nat.leb n 122 then ascii_of_nat (n - 32) else c.

Fixpoint map_string (f : ascii -> ascii) (s : string) : string :=
  match s with
  | String c r => String (f c) (map_string f r)
  | EmptyString => EmptyString
  end.

Definition toLowerCase (s : string) : string := map_string lower_ascii s.

(** Full upper-case mapping of one code unit below 256 (Latin-1): a-z and
    the Latin-1 small letters U+00E0-U+00FE but U+00F7 lose 32, U+00DF
    becomes ["SS"]. U+00B5 and U+00FF map to U+039C and U+0178, which have
    no 8-bit code unit: they are left as they are in this model. *)
Definition upper_char (c : ascii) : string :=
  let n := nat_of_ascii c in
  if (Nat.leb 97 n && Nat.leb n 122)
     || (Nat.leb 224 n && Nat.leb n 254 && negb (Nat.eqb n 247))
  then String (ascii_of_nat (n - 32)) EmptyString
  else if Nat.eqb n 223 then "SS"
  else String c EmptyString.

(** [String.prototype.toUpperCase] *)
Fixpoint toUpperCase (s : string) : string :=
  match s with
  | String c r => upper_char c ++ toUpperCase r
  | EmptyString => EmptyString
  end.

(** [s.charAt(0).toUpperCase() + s.slice(1)] *)
Definition capitalize (s : string) : string :=
  match s with
  | String c r => toUpperCase (String c EmptyString) ++ r
  | EmptyString => EmptyString
  end.

Fixpoint join (sep : string) (xs : list string) : string :=
  match xs with
  | [] => ""
  | [x] => x
  | x :: rest => x ++ sep ++ join sep rest
  end.

(** ** [Object.keys]

    Own keys of a decoded object: array-index keys first, in ascending
    numeric order, then the other keys in first-insertion order. *)

Fixpoint all_digits (s : string) : bool :=
  match s with
  | String c r => is_digit c && all_digits r
  | EmptyString => true
  end.

(** The numeric value of [s] when [s] is an array index (canonical decimal
    below 2^32 - 1). *)
Definition array_index (s : string) : option Z :=
  match s with
  | EmptyString => None
  | _ =>
      if all_digits s then
        let v := fst (read_digits s 0%Z O) in
        if String.eqb (dec_of_Z v) s && Z.ltb v 4294967295 then Some v else None
      else None
  end.

(** Methods inherited from [Object.prototype] by every value but [null]
    (the accessor [__proto__] is not read by the code and not modelled). *)
Definition object_proto_methods : list string :=
  ["constructor"; "hasOwnProperty"; "isPrototypeOf"; "propertyIsEnumerable";
   "toLocaleString"; "toString"; "valueOf"; "__defineGetter__";
   "__defineSetter__"; "__lookupGetter__"; "__lookupSetter__"].

Definition array_proto_methods : list string :=
  ["at"; "concat"; "copyWithin"; "entries"; "every"; "fill"; "filter"; "find";
   "findIndex"; "findLast"; "findLastIndex"; "flat"; "flatMap"; "forEach";
   "includes"; "indexOf"; "join"; "keys"; "lastIndexOf"; "map"; "pop"; "push";
   "reduce"; "reduceRight"; "reverse"; "shift"; "slice"; "some"; "sort";
   "splice"; "toReversed"; "toSorted"; "toSpliced"; "unshift"; "values";
   "with"].

Definition string_proto_methods : list string :=
  ["at"; "charAt"; "charCodeAt"; "codePointAt"; "concat"; "endsWith";
   "includes"; "indexOf"; "isWellFormed"; "lastIndexOf"; "localeCompare";
   "match"; "matchAll"; "normalize"; "padEnd"; "padStart"; "repeat"; "replace";
   "replaceAll"; "search"; "slice"; "split"; "startsWith"; "substr";
   "substring"; "toLocaleLowerCase"; "toLocaleUpperCase"; "toLowerCase";
   "toUpperCase"; "toWellFormed"; "trim"; "trimEnd"; "trimStart"; "trimLeft";
   "trimRight"; "anchor"; "big"; "blink"; "bold"; "fixed"; "fontcolor";
   "fontsize"; "italics"; "link"; "small"; "strike"; "sub"; "sup"].

Definition number_proto_methods : list string :=
  ["toExponential"; "toFixed"; "toPrecision"].

Definition function_proto_methods : list string :=
  ["apply"; "bind"; "call"].

(** A method found on the prototype chain, given the methods of the
    value's own prototype. *)
Definition inherited (own_proto : list string) (k : string) : option json :=
  if existsb (String.eqb k) (own_proto ++ object_proto_methods) then Some JFun else None.

(** [v.k] for a value [v] of the decoded payloads. The own properties of a
    method (its [length] and [name]) are not modelled: the code reads no
    property of a method. *)
Definition get_prop (v : json) (k : string) : Res (option json) :=
  match v with
  | JNull => Throw TypeError
  | JObj fs =>
      Ok (if existsb (String.eqb k) object_proto_methods
          then match obj_get fs k with Some w => Some w | None => Some JFun end
          else obj_get fs k)
  | JArr xs =>
      Ok (if String.eqb k "length" then Some (JNum (Z.of_nat (length xs)))
          else match array_index k with
               | Some i => nth_error xs (Z.to_nat i)
               | None => inherited array_proto_methods k
               end)
  | JStr s =>
      Ok (if String.eqb k "length" then Some (JNum (Z.of_nat (String.length s)))
          else match array_index k with
               | Some i => option_map (fun c => JStr (String c EmptyString))
                                      (String.get (Z.to_nat i) s)
               | None => inherited string_proto_methods k
               end)
  | JNum _ => Ok (inherited number_proto_methods k)
  | JBool _ => Ok (inherited [] k)
  | JFun => Ok (inherited function_proto_methods k)
  end.

Fixpoint dedup_keys (fs : list (string * json)) (seen : list string) : list string :=
  match fs with
  | [] => []
  | (k, _) :: rest =>
      if existsb (String.eqb k) seen then dedup_keys rest seen
      else k :: dedup_keys rest (k :: seen)
  end.

Fixpoint insert_index (k : Z * string) (l : list (Z * string)) : list (Z * string) :=
  match l with
  | [] => [k]
  | k' :: rest => if Z.leb (fst k) (fst k') then k :: l else k' :: insert_index k rest
  end.

Definition object_keys (fs : list (string * json)) : list string :=
  let ks := dedup_keys fs [] in
  let idx := fold_right (fun k acc =>
               match array_index k with
               | Some v => insert_index (v, k) acc
               | None => acc
               end) [] ks in
  map snd idx ++ filter (fun k => match array_index k with Some _ => false | None => true end) ks.

(** [Object.keys(o).filter(p => o[p] === true)] for [o] an object or an
    array. *)
Definition true_keys (v : json) : list string :=
  match v with
  | JObj fs =>
      filter (fun k => match obj_get fs k with Some (JBool true) => true | _ => false end)
             (object_keys fs)
  | JArr xs =>
      map (fun p => dec_of_nat (fst p))
          (filter (fun p => match snd p with JBool true => true | _ => false end)
                  (combine (seq 0 (length xs)) xs))
  | _ => []
  end.

(** [typeof v === 'object'] for a present value. *)
Definition is_object (v : option json) : bool :=
  match v with
  | Some JNull | Some (JObj _) | Some (JArr _) => true
  | _ => false
  end.

(** ** HTTP responses *)

Record response : Type := mkResponse {
  status : Z;
  statusText : string;
  headers : list (string * string);
  body : option json        (* [None]: the body is not valid JSON *)
}.

(** [response.ok] *)
Definition ok (r : response) : bool := Z.leb 200 (status r) && Z.leb (status r) 299.

(** [response.headers.get(name)]: case-insensitive, several values joined by
    [", "], [null] when absent. *)
Definition header_get (hs : list (string * string)) (name : string) : option string :=
  match map snd (filter (fun h => String.eqb (toLowerCase (fst h)) (toLowerCase name)) hs) with
  | [] => None
  | vs => Some (join ", " vs)
  end.

(** [response.json()] *)
Definition json_body (r : response) : Res json :=
  match body r with
  | Some j => Ok j
  | None => Throw SyntaxError
  end.

Inductive settled (A : Type) : Type :=
| Fulfilled (a : A)
| Rejected (reason : exn).
Arguments Fulfilled {A} a.
Arguments Rejected {A} reason.

(** ** The service's records ([ContributorInfo] and its parts) *)

Record ContributorRole : Type := mkRole {
  role : string;
  permissions : list string
}.

Record ContributorActivities : Type := mkActivities {
  pullRequests : Z;
  commits : json;           (* [contributor.contributions || 0] *)
  issuesOpened : Z
}.

Record GithubRepo : Type := mkGithubRepo {
  name : option json;       (* [repo.full_name], possibly undefined *)
  url : option json;        (* [repo.html_url] *)
  repo_role : string
}.

Record ContributorInfo : Type := mkContributorInfo {
  username : string;
  roleInfo : ContributorRole;
  activities : ContributorActivities;
  externalRepos : list GithubRepo;
  emails : list json
}.

(** ** Processing of the three per-contributor sub-requests
    ([getRepoContributors], lines 212-305) *)

Fixpoint res_mapM {A B} (f : A -> Res B) (l : list A) : Res (list B) :=
  match l with
  | [] => Ok []
  | x :: rest => let* y := f x in let* ys := res_mapM f rest in Ok (y :: ys)
  end.

Fixpoint res_filterM {A} (p : A -> Res bool) (l : list A) : Res (list A) :=
  match l with
  | [] => Ok []
  | x :: rest =>
      let* b := p x in
      let* ys := res_filterM p rest in
      Ok (if b then x :: ys else ys)
  end.

(** User profile: the public email, if any. *)
Definition processUser (userResult : settled response) : Res (list json) :=
  match userResult with
  | Fulfilled r =>
      if ok r then
        let* userData := json_body r in
        let* email := get_prop userData "email" in
        Ok (match email with
            | Some e => if truthy_json e then [e] else []
            | None => []
            end)
      else Ok []
  | Rejected _ => Ok []
  end.

(** [switch (permissionData.permission)] *)
Definition permission_level_role (p : option json) : string :=
  if strict_eq_str p "admin" then "Admin"
  else if strict_eq_str p "write" then "Maintainer"
  else if strict_eq_str p "read" then "Read"
  else "Collaborator".

Definition permission_level_permissions (p : option json) : list string :=
  if strict_eq_str p "admin" then ["admin"; "push"; "pull"]
  else if strict_eq_str p "write" then ["push"; "pull"]
  else if strict_eq_str p "read" then ["pull"]
  else [].

(** Collaborator permission: role and permissions; any failure keeps the
    defaults ["Contributor"] and []. *)
Definition processPermission (permissionResult : settled response) : Res ContributorRole :=
  match permissionResult with
  | Fulfilled r =>
      if ok r then
        let* permissionData := json_body r in
        let* role_name := get_prop permissionData "role_name" in
        let* role :=
          if truthy role_name then
            match role_name with
            | Some (JStr s) => Ok (capitalize s)
            | _ => Throw TypeError          (* role_name.charAt is not a function *)
            end
          else
            let* permission := get_prop permissionData "permission" in
            Ok (if truthy permission then permission_level_role permission else "Contributor") in
        let* perms := get_prop permissionData "permissions" in
        let* permissions :=
          if truthy perms && is_object perms then
            Ok (match perms with Some v => true_keys v | None => [] end)
          else
            let* permission := get_prop permissionData "permission" in
            Ok (if truthy permission then permission_level_permissions permission else []) in
        Ok (mkRole role permissions)
      else Ok (mkRole "Contributor" [])
  | Rejected _ => Ok (mkRole "Contributor" [])
  end.

(** One entry of the user's repositories, mapped to a [GithubRepo]. *)
Definition repo_entry (repo : json) : Res GithubRepo :=
  let* perms := get_prop repo "permissions" in
  let* repoRole :=
    match perms with
    | Some p =>
        if truthy_json p then
          let* admin := get_prop p "admin" in
          if truthy admin then Ok "Admin"
          else
            let* push := get_prop p "push" in
            Ok (if truthy push then "Write" else "Read")
        else Ok "Read"
    | None => Ok "Read"
    end in
  let* full_name := get_prop repo "full_name" in
  let* html_url := get_prop repo "html_url" in
  Ok (mkGithubRepo full_name html_url repoRole).

(** External repositories: every listed repository but the target one. *)
Definition processRepos (repoName : string) (reposResult : settled response)
  : Res (list GithubRepo) :=
  match reposResult with
  | Fulfilled r =>
      if ok r then
        let* reposData := json_body r in
        match reposData with
        | JArr repos =>
            let* kept := res_filterM (fun repo =>
                           let* full_name := get_prop repo "full_name" in
                           Ok (negb (strict_eq_str full_name repoName))) repos in
            res_mapM repo_entry kept
        | _ => Ok []
        end
      else Ok []
  | Rejected _ => Ok []
  end.

(** The body of the [try] block (lines 204-305), after the three requests
    have settled. *)
Definition processContributor (repoName : string) (contributor : json) (user : string)
  (userResult permissionResult reposResult : settled response) : Res ContributorInfo :=
  let* publicEmails := processUser userResult in
  let* roleInfo := processPermission permissionResult in
  let* externalRepos := processRepos repoName reposResult in
  let* contributions := get_prop contributor "contributions" in
  Ok (mkContributorInfo user roleInfo
        (mkActivities 0 (js_or contributions (JNum 0)) 0)
        externalRepos publicEmails).

(** [!contributor || typeof contributor.login !== 'string'] fails: [None];
    otherwise the login. *)
Definition login_of (contributor : json) : option string :=
  if truthy_json contributor then
    match get_prop contributor "login" with
    | Ok (Some (JStr s)) => Some s
    | _ => None
    end
  else None.

Fixpoint filter_nonnull {A} (l : list (option A)) : list A :=
  match l with
  | [] => []
  | Some x :: rest => x :: filter_nonnull rest
  | None :: rest => filter_nonnull rest
  end.

(** ** The API error classifier ([handleApiError]): the error it throws *)

(** [v === s] for a header value [v] (a string or [null]). *)
Definition opt_str_eqb (v : option string) (s : string) : bool :=
  match v with
  | Some v' => String.eqb v' s
  | None => false
  end.

Section Classifier.

Variable toLocaleTimeString : Z -> string.

(** [rateLimitReset ? new Date(parseInt(rateLimitReset, 10) * 1000)
    .toLocaleTimeString() : 'unknown time'] *)
Definition resetTime (rateLimitReset : option string) : string :=
  match rateLimitReset with
  | Some s =>
      if String.eqb s "" then "unknown time"
      else
        match parseInt10 s with
        | Some n =>
            let t := (n * 1000)%Z in
            if Z.leb (Z.abs t) 8640000000000000 then toLocaleTimeString t
            else "Invalid Date"
        | None => "Invalid Date"
        end
  | None => "unknown time"
  end.

Definition handleApiError (r : response) (context : string) : exn :=
  if Z.eqb (status r) 404 then
    ErrorMsg ("Resource not found (" ++ context ++ "). Please check the repository name or username.")
  else if Z.eqb (status r) 401 then
    ErrorMsg "Authentication failed. Please check your GitHub token."
  else if Z.eqb (status r) 403 then
    if opt_str_eqb (header_get (headers r) "X-RateLimit-Remaining") "0" then
      ErrorMsg ("GitHub API rate limit exceeded. Please wait and try again after "
                ++ resetTime (header_get (headers r) "X-RateLimit-Reset") ++ ".")
    else
      ErrorMsg "Insufficient permissions. Your token may lack the required scopes (e.g., repo access) or access to this specific resource."
  else
    ErrorMsg ("Failed " ++ context ++ ": GitHub API responded with "
              ++ dec_of_Z (status r) ++ " " ++ statusText r).

End Classifier.

(** ** Effects: requested URLs and exceptions *)

Definition M (A : Type) : Type := list string -> Res A * list string.

Definition ret {A} (a : A) : M A := fun tr => (Ok a, tr).

Definition bind {A B} (m : M A) (k : A -> M B) : M B :=
  fun tr =>
    match m tr with
    | (Ok a, tr') => k a tr'
    | (Throw e, tr') => (Throw e, tr')
    end.

Notation "x <- m ;; k" := (bind m (fun x => k))
  (at level 61, m at next level, right associativity).

Definition throw {A} (e : exn) : M A := fun tr => (Throw e, tr).

Definition lift {A} (r : Res A) : M A := fun tr => (r, tr).

(** [try { m } catch (e) { h(e) }] *)
Definition catch {A} (m : M A) (h : exn -> M A) : M A :=
  fun tr =>
    match m tr with
    | (Throw e, tr') => h e tr'
    | res => res
    end.

(** One slot of [Promise.allSettled]. *)
Definition settle {A} (m : M A) : M (settled A) :=
  fun tr =>
    match m tr with
    | (Ok a, tr') => (Ok (Fulfilled a), tr')
    | (Throw e, tr') => (Ok (Rejected e), tr')
    end.

Fixpoint mapM {A B} (f : A -> M B) (l : list A) : M (list B) :=
  match l with
  | [] => ret []
  | x :: rest => y <- f x ;; ys <- mapM f rest ;; ret (y :: ys)
  end.

(** ** The service, the server action and the form *)

Inductive FetchContributorsResult : Type :=
| Success (data : list ContributorInfo)
| Failure (error : string).

(** [error instanceof Error ? error.message : ...]; the text of the engine's
    own errors is engine-specific and kept abstract as the error's name. *)
Definition exn_message (e : exn) : string :=
  match e with
  | ErrorMsg m => m
  | SyntaxError => "SyntaxError"
  | TypeError => "TypeError"
  end.

Definition BASE_URL : string := "https://api.github.com".

Section Service.

Variable toLocaleTimeString : Z -> string.
Variable net : string -> string -> option response.

Definition safeFetch (url auth : string) : M response :=
  fun tr =>
    let tr' := (tr ++ [url])%list in
    match net url auth with
    | Some r => (Ok r, tr')
    | None => (Throw (ErrorMsg "Network connection failed while trying to reach GitHub API."), tr')
    end.

Definition user_url (user : string) : string := BASE_URL ++ "/users/" ++ user.

Definition permission_url (repoName user : string) : string :=
  BASE_URL ++ "/repos/" ++ repoName ++ "/collaborators/" ++ user ++ "/permission".

Definition user_repos_url (user : string) : string :=
  BASE_URL ++ "/users/" ++ user ++ "/repos?type=all&per_page=5&sort=pushed".

(** The async arrow of [limitedContributors.map] (lines 193-311). *)
Definition contributorInfo (repoName auth : string) (contributor : json)
  : M (option ContributorInfo) :=
  match login_of contributor with
  | None => ret None
  | Some user =>
      userResult <- settle (safeFetch (user_url user) auth) ;;
      permissionResult <- settle (safeFetch (permission_url repoName user) auth) ;;
      reposResult <- settle (safeFetch (user_repos_url user) auth) ;;
      ret (match processContributor repoName contributor user
                   userResult permissionResult reposResult with
           | Ok info => Some info
           | Throw _ => None
           end)
  end.

Definition contributors_url (repoName : string) : string :=
  BASE_URL ++ "/repos/" ++ repoName ++ "/contributors?per_page=100".

Definition getRepoContributors (repoName githubToken : string) : M (list ContributorInfo) :=
  let auth := "Bearer " ++ githubToken in
  contributorsData <-
    catch (contributorsRes <- safeFetch (contributors_url repoName) auth ;;
           if negb (ok contributorsRes) then
             throw (handleApiError toLocaleTimeString contributorsRes
                      ("fetching contributors for " ++ repoName))
           else
             data <- lift (json_body contributorsRes) ;;
             match data with
             | JArr xs => ret xs
             | _ => throw (ErrorMsg "Unexpected data format received from GitHub API when fetching contributors.")
             end)
          (fun error => throw error) ;;
  let limitedContributors := firstn 50 contributorsData in
  results <- mapM (contributorInfo repoName auth) limitedContributors ;;
  ret (filter_nonnull results).

(** [RepoInputSchema.safeParse]: the messages of the failed checks. *)
Definition repoInputErrors (repoFullName githubToken : string) : list string :=
  ((if String.eqb repoFullName "" then ["Repository name is required."] else [])
   ++ (if String.eqb githubToken "" then ["GitHub token is required."] else []))%list.

Definition fetchContributorsAction (repoFullName githubToken : string)
  : M FetchContributorsResult :=
  match repoInputErrors repoFullName githubToken with
  | [] =>
      catch (data <- getRepoContributors repoFullName githubToken ;;
             ret (Success data))
            (fun error => ret (Failure (exn_message error)))
  | errs => ret (Failure (join ", " errs))
  end.

End Service.

(** ** The form of [page.tsx]: the repository pattern

    [/^(?:https?:\/\/github\.com\/)?([a-zA-Z0-9_-]+\/[a-zA-Z0-9_-]+)(?:\.git)?\/?$/]
    as a backtracking matcher in continuation-passing style.  A continuation
    receives the rest of the input; the result of a match is the text of
    capture group 1. *)

Definition matcher : Type := string -> (string -> option string) -> option string.

Fixpoint strip_prefix (p s : string) : option string :=
  match p, s with
  | EmptyString, _ => Some s
  | String a p', String b s' => if Ascii.eqb a b then strip_prefix p' s' else None
  | String _ _, EmptyString => None
  end.

Definition lit (p : string) : matcher :=
  fun s k => match strip_prefix p s with Some r => k r | None => None end.

(** [[...]*], greedy. *)
Fixpoint star_cls (f : ascii -> bool) (s : string) (k : string -> option string) : option string :=
  match s with
  | String c r =>
      if f c then
        match star_cls f r k with
        | Some x => Some x
        | None => k s
        end
      else k s
  | EmptyString => k s
  end.

(** [[...]+], greedy. *)
Definition plus_cls (f : ascii -> bool) : matcher :=
  fun s k =>
    match s with
    | String c r => if f c then star_cls f r k else None
    | EmptyString => None
    end.

(** [(?:...)?], greedy. *)
Definition opt (m : matcher) : matcher :=
  fun s k => match m s k with Some x => Some x | None => k s end.

Definition mseq (m1 m2 : matcher) : matcher := fun s k => m1 s (fun s' => m2 s' k).

(** Capture group 1: on success, the text consumed by [m]. *)
Definition group (m : matcher) : matcher :=
  fun s k =>
    m s (fun s' =>
      match k s' with
      | Some _ => Some (substring 0 (String.length s - String.length s') s)
      | None => None
      end).

(** [$] *)
Definition at_end (s : string) : option string :=
  match s with EmptyString => Some "" | _ => None end.

(** [[a-zA-Z0-9_-]] *)
Definition repo_char (c : ascii) : bool :=
  let n := nat_of_ascii c in
  (Nat.leb 97 n && Nat.leb n 122) || (Nat.leb 65 n && Nat.leb n 90)
  || (Nat.leb 48 n && Nat.leb n 57) || Nat.eqb n 95 || Nat.eqb n 45.

Definition repo_regex : matcher :=
  mseq (opt (mseq (lit "http") (mseq (opt (lit "s")) (lit "://github.com/"))))
   (mseq (group (mseq (plus_cls repo_char) (mseq (lit "/") (plus_cls repo_char))))
    (mseq (opt (lit ".git")) (opt (lit "/")))).

(** [values.repo.match(regex)?.[1]] *)
Definition repoMatch (repo : string) : option string := repo_regex repo at_end.

(** [formSchema]: both fields non-empty and the repository matches. *)
Definition formSchema_valid (repo token : string) : bool :=
  negb (String.eqb repo "") && match repoMatch repo with Some _ => true | None => false end
  && negb (String.eqb token "").

Inductive SubmitOutcome : Type :=
| FormRejected                        (* zodResolver: onSubmit is not run *)
| InvalidRepositoryFormat             (* the toast of onSubmit *)
| CallsAction (repoFullName githubToken : string).

(** Submitting the form: validation by [formSchema], then [onSubmit] up to the
    call of [fetchContributorsAction]. *)
Definition submit (repo token : string) : SubmitOutcome :=
  if formSchema_valid repo token then
    match repoMatch repo with
    | Some currentRepoName =>
        if String.eqb currentRepoName "" then InvalidRepositoryFormat
        else CallsAction currentRepoName token
    | None => InvalidRepositoryFormat
    end
  else FormRejected.

(** ** Concrete inputs *)

Definition loc_time (t : Z) : string := "time@" ++ dec_of_Z t.

Definition mkResp (st : Z) (hs : list (string * string)) (b : option json) : response :=
  mkResponse st "" hs b.

(** ** Views of a run used in the statements *)

(** A [settle (safeFetch url auth)] slot, as a function of the network's
    answer. *)
Definition settled_of (o : option response) : settled response :=
  match o with
  | Some r => Fulfilled r
  | None => Rejected (ErrorMsg "Network connection failed while trying to reach GitHub API.")
  end.

(** The value [contributorInfo] resolves to, read off the network. *)
Definition contributor_result (net : string -> string -> option response)
  (repoName auth : string) (contributor : json) : option ContributorInfo :=
  match login_of contributor with
  | None => None
  | Some user =>
      match processContributor repoName contributor user
              (settled_of (net (user_url user) auth))
              (settled_of (net (permission_url repoName user) auth))
              (settled_of (net (user_repos_url user) auth)) with
      | Ok info => Some info
      | Throw _ => None
      end
  end.

(** The URLs [contributorInfo] requests, in order. *)
Definition detail_urls (repoName : string) (contributor : json) : list string :=
  match login_of contributor with
  | None => []
  | Some user => [user_url user; permission_url repoName user; user_repos_url user]
  end.

(** [out] is [l] with some entries dropped and every kept entry [a] replaced
    by a [b] with [R a b], in the same order. *)
Inductive kept_in_order {A B} (R : A -> B -> Prop) : list A -> list B -> Prop :=
| kio_nil : kept_in_order R [] []
| kio_drop a l out : kept_in_order R l out -> kept_in_order R (a :: l) out
| kio_keep a b l out : R a b -> kept_in_order R l out -> kept_in_order R (a :: l) (b :: out).

(** Number of entries the user-repos endpoint lists for [user]. *)
Definition repos_listed (net : string -> string -> option response) (auth user : string) : nat :=
  match net (user_repos_url user) auth with
  | Some r => match body r with Some (JArr l) => length l | _ => 0 end
  | None => 0
  end.

(** ** Concrete networks *)

Definition ok_json (j : json) : option response := Some (mkResp 200 [] (Some j)).

(** The base call lists [{login:"a", contributions:10}]; every other request
    fails at the network level. *)
Definition net_one (u _ : string) : option response :=
  if String.eqb u (contributors_url "octocat/Hello-World")
  then ok_json (JArr [JObj [("login", JStr "a"); ("contributions", JNum 10)]])
  else None.

(** The base call lists 56 entries: [null], then the logins u1 to u55; every
    detail request fails. *)
Definition many_contributors : list json :=
  JNull :: map (fun n => JObj [("login", JStr ("u" ++ dec_of_nat n)); ("contributions", JNum (Z.of_nat n))])
              (seq 1 55).

Definition net_many (u _ : string) : option response :=
  if String.eqb u (contributors_url "octocat/Hello-World")
  then ok_json (JArr many_contributors)
  else None.

(** The base call lists the login ["a"] twice. *)
Definition net_dup (u _ : string) : option response :=
  if String.eqb u (contributors_url "octocat/Hello-World")
  then ok_json (JArr [JObj [("login", JStr "a"); ("contributions", JNum 3)];
                      JObj [("login", JStr "a"); ("contributions", JNum 4)]])
  else None.

(** ** Failed requests, and more concrete networks *)

(** A request fails: [fetch] rejects, or the response is not 2xx. *)
Definition request_failed (o : option response) : Prop :=
  match o with
  | None => True
  | Some r => ok r = false
  end.

(** The user-repos endpoint of ["a"] lists six repositories. *)
Definition six_repos : json :=
  JArr (map (fun n => JObj [("full_name", JStr ("someone/r" ++ dec_of_nat n));
                            ("html_url", JStr ("https://github.com/someone/r" ++ dec_of_nat n))])
            (seq 1 6)).

Definition net_six (u _ : string) : option response :=
  if String.eqb u (contributors_url "octocat/Hello-World")
  then ok_json (JArr [JObj [("login", JStr "a"); ("contributions", JNum 10)]])
  else if String.eqb u (user_repos_url "a") then ok_json six_repos
  else None.

(** The permission lookup of ["a"] answers 404. *)
Definition net_perm404 (u _ : string) : option response :=
  if String.eqb u (permission_url "octocat/Hello-World" "a")
  then Some (mkResponse 404 "Not Found" [] (Some (JObj [("message", JStr "Not Found")])))
  else if String.eqb u (user_url "a") then ok_json (JObj [("login", JStr "a"); ("email", JStr "a@example.com")])
  else None.

(** The profile of ["a"] answers 200 with a body that is not JSON; the
    other requests fail. *)
Definition net_bad_profile (u _ : string) : option response :=
  if String.eqb u (user_url "a") then Some (mkResp 200 [] None) else None.

(** The rate-limited 403 response without a reset header. *)
Definition resp_rate_limited_no_reset : response :=
  mkResponse 403 "Forbidden" [("X-RateLimit-Remaining", "0")] (Some (JObj [])).

(** The rate-limited 403 response resetting at 1700000000 (epoch seconds). *)
Definition resp_rate_limited : response :=
  mkResponse 403 "Forbidden" [("x-ratelimit-remaining", "0"); ("x-ratelimit-reset", "1700000000")]
    (Some (JObj [])).

(** A rate-limited 403 whose reset instant lies beyond the range of a
    [Date]. *)
Definition resp_rate_limited_far : response :=
  mkResponse 403 "Forbidden" [("x-ratelimit-remaining", "0"); ("x-ratelimit-reset", "9000000000000")]
    (Some (JObj [])).

Definition net_rate_limited (u _ : string) : option response :=
  if String.eqb u (contributors_url "octocat/Hello-World") then Some resp_rate_limited else None.

Definition net_rate_limited_far (u _ : string) : option response :=
  if String.eqb u (contributors_url "octocat/Hello-World") then Some resp_rate_limited_far else None.

Definition net_rate_limited_no_reset (u _ : string) : option response :=
  if String.eqb u (contributors_url "octocat/Hello-World") then Some resp_rate_limited_no_reset else None.

(** ** Parts of the repository pattern *)

Fixpoint all_chars (f : ascii -> bool) (s : string) : bool :=
  match s with
  | String c r => f c && all_chars f r
  | EmptyString => true
  end.

(** A non-empty run of [[a-zA-Z0-9_-]]. *)
Definition repo_word (w : string) : Prop := w <> "" /\ all_chars repo_char w = true.

(** [s] is empty or starts with a character outside the class [f]. *)
Definition stops (f : ascii -> bool) (s : string) : Prop :=
  match s with
  | String c _ => f c = false
  | EmptyString => True
  end.

Fixpoint no_colon (s : string) : bool :=
  match s with
  | String c r => negb (Ascii.eqb c ":") && no_colon r
  | EmptyString => true
  end.

Definition repo_prefix : matcher :=
  mseq (lit "http") (mseq (opt (lit "s")) (lit "://github.com/")).

Definition repo_group : matcher :=
  group (mseq (plus_cls repo_char) (mseq (lit "/") (plus_cls repo_char))).

Definition repo_tail : matcher := mseq (opt (lit ".git")) (opt (lit "/")).

Definition repo_suffixes : list string := [""; ".git"; "/"; ".git/"].

(** [url] is one of the forms the optional prefix of the pattern accepts. *)
Definition url_prefixes : list string := [""; "http://github.com/"; "https://github.com/"].

(** Every success of [m] consumes a prefix [w] of its input satisfying [P] and
    hands the rest to its continuation. *)
Definition matches_as (m : matcher) (P : string -> Prop) : Prop :=
  forall s k x, m s k = Some x -> exists w r, s = (w ++ r) /\ P w /\ k r = Some x.

(** ** The page: its state, [onSubmit] and the panels it renders
    ([page.tsx], lines 44-131 and 199-379) *)

Module Page.

(** [toast({ variant, title, description })] *)
Record Toast : Type := mkToast {
  variant : string;
  title : string;
  description : string
}.

(** The [React.useState] slots of [Home], with the toasts shown so far. *)
Record State : Type := mkState {
  contributors : list ContributorInfo;
  isLoading : bool;
  selectedContributor : option ContributorInfo;
  repoName : option string;
  errorOccurred : option string;
  toasts : list Toast
}.

Definition initial : State := mkState [] false None None None [].

Definition setContributors (v : list ContributorInfo) (s : State) : State :=
  mkState v (isLoading s) (selectedContributor s) (repoName s) (errorOccurred s) (toasts s).
Definition setIsLoading (v : bool) (s : State) : State :=
  mkState (contributors s) v (selectedContributor s) (repoName s) (errorOccurred s) (toasts s).
Definition setSelectedContributor (v : option ContributorInfo) (s : State) : State :=
  mkState (contributors s) (isLoading s) v (repoName s) (errorOccurred s) (toasts s).
Definition setRepoName (v : option string) (s : State) : State :=
  mkState (contributors s) (isLoading s) (selectedContributor s) v (errorOccurred s) (toasts s).
Definition setErrorOccurred (v : option string) (s : State) : State :=
  mkState (contributors s) (isLoading s) (selectedContributor s) (repoName s) v (toasts s).
Definition toast (t : Toast) (s : State) : State :=
  mkState (contributors s) (isLoading s) (selectedContributor s) (repoName s) (errorOccurred s)
    (toasts s ++ [t])%list.

(** The early return of [onSubmit] (lines 68-77). *)
Definition invalidFormat (s : State) : State :=
  let s := toast (mkToast "destructive" "Invalid Repository Format"
                    "Please enter a valid repository name (e.g., owner/repo) or URL.") s in
  let s := setIsLoading false s in
  setErrorOccurred (Some "Invalid repository format provided.") s.

(** [onSubmit(values)] run to completion.  [act] is the call of the server
    action [fetchContributorsAction]: the result it resolves to, or [Throw]
    when the call itself rejects. *)
Definition onSubmit (act : string -> string -> Res FetchContributorsResult)
  (repo token : string) (s : State) : State :=
  let s := setIsLoading true s in
  let s := setContributors [] s in
  let s := setSelectedContributor None s in
  let s := setErrorOccurred None s in
  let s := setRepoName None s in
  match repoMatch repo with
  | None => invalidFormat s
  | Some currentRepoName =>
      if String.eqb currentRepoName "" then invalidFormat s   (* !repoMatch[1] *)
      else
        let s := setRepoName (Some currentRepoName) s in
        let s :=
          match act currentRepoName token with
          | Ok (Success data) =>
              let s :=
                match data with
                | [] =>
                    let s := toast (mkToast "default" "No Contributors Found"
                                      ("Could not find any contributors for " ++ currentRepoName
                                       ++ ", or the repository might be private/inaccessible.")) s in
                    setSelectedContributor None s
                | first :: _ => setSelectedContributor (Some first) s
                end in
              setContributors data s
          | Ok (Failure error) =>
              let errorMessage :=
                if String.eqb error "" then "Failed to fetch contributor data. Please check details and try again."
                else error in
              let s := toast (mkToast "destructive" "Error Fetching Data" errorMessage) s in
              let s := setErrorOccurred (Some errorMessage) s in
              let s := setContributors [] s in
              setSelectedContributor None s
          | Throw error =>
              let clientErrorMessage := exn_message error in
              let s := toast (mkToast "destructive" "Client Error" clientErrorMessage) s in
              let s := setErrorOccurred (Some clientErrorMessage) s in
              let s := setContributors [] s in
              setSelectedContributor None s
          end in
        setIsLoading false s                                    (* finally *)
  end.

(** [errorOccurred] in a condition: [null] and [''] are falsy. *)
Definition truthy_opt_str (v : option string) : bool :=
  match v with
  | Some s => negb (String.eqb s "")
  | None => false
  end.

(** The conditional panels of [Home]; [isSubmitted] is
    [form.formState.isSubmitted]. *)
Definition shows_loading (s : State) : bool := isLoading s.
Definition shows_results (s : State) : bool :=
  negb (isLoading s) && Nat.ltb 0 (length (contributors s)).
Definition shows_no_results (isSubmitted : bool) (s : State) : bool :=
  negb (isLoading s) && isSubmitted && Nat.eqb (length (contributors s)) 0
  && negb (truthy_opt_str (errorOccurred s)).
Definition shows_error (s : State) : bool :=
  negb (isLoading s) && truthy_opt_str (errorOccurred s).
Definition shows_initial (isSubmitted : bool) (s : State) : bool :=
  negb (isLoading s) && negb isSubmitted && negb (truthy_opt_str (errorOccurred s)).

(** Number of the three result panels (list, no contributors, error) shown. *)
Definition result_panels (s : State) : nat :=
  (if shows_results s then 1 else 0) + (if shows_no_results true s then 1 else 0)
  + (if shows_error s then 1 else 0).

End Page.

(** ** More concrete inputs *)

(** The base call lists ["a"], whose profile has a public email. *)
Definition net_profile (u _ : string) : option response :=
  if String.eqb u (contributors_url "octocat/Hello-World")
  then ok_json (JArr [JObj [("login", JStr "a"); ("contributions", JNum 1)]])
  else if String.eqb u (user_url "a") then ok_json (JObj [("login", JStr "a"); ("email", JStr "a@example.com")])
  else None.

(** A permission lookup answering a permission level only. *)
Definition resp_permission (level : string) : response :=
  mkResp 200 [] (Some (JObj [("permission", JStr level)])).

(** Two records, as a successful action returns them. *)
Definition sample_records : list ContributorInfo :=
  [mkContributorInfo "a" (mkRole "Admin" ["admin"; "push"; "pull"]) (mkActivities 0 (JNum 10) 0) [] [];
   mkContributorInfo "b" (mkRole "Contributor" []) (mkActivities 0 (JNum 3) 0) [] []].

(** * Proofs *)

(** The fields the code reads are no [Object.prototype] members: on an
    object, reading one reads the own field. *)
Lemma get_prop_obj fs k :
  existsb (String.eqb k) object_proto_methods = false -> get_prop (JObj fs) k = Ok (obj_get fs k).
Proof. intro H. unfold get_prop. now rewrite H. Qed.

(** ** Sanity checks on concrete inputs *)

Example repoMatch_bare : repoMatch "octocat/Hello-World" = Some "octocat/Hello-World".
Proof. reflexivity. Qed.
Example repoMatch_url : repoMatch "https://github.com/octocat/Hello-World.git/" = Some "octocat/Hello-World".
Proof. reflexivity. Qed.
Example repoMatch_bad : repoMatch "octocat/Hello World" = None.
Proof. reflexivity. Qed.
Example parseInt_ex : parseInt10 "  -17abc" = Some (-17)%Z.
Proof. reflexivity. Qed.
Example dec_ex : dec_of_Z 503 = "503".
Proof. reflexivity. Qed.
Example keys_ex : true_keys (JObj [("pull", JBool true); ("2", JBool true); ("push", JBool false); ("1", JBool true)])
  = ["1"; "2"; "pull"].
Proof. reflexivity. Qed.

(** ** General lemmas on runs *)

Lemma contributorInfo_run net repoName auth c tr :
  contributorInfo net repoName auth c tr
  = (Ok (contributor_result net repoName auth c), (tr ++ detail_urls repoName c)%list).
Proof.
  unfold contributorInfo, contributor_result, detail_urls, bind, settle, safeFetch, ret.
  destruct (login_of c) as [user|]; [|now rewrite ?app_nil_r].
  destruct (net (user_url user) auth), (net (permission_url repoName user) auth),
    (net (user_repos_url user) auth); simpl;
  now rewrite <- !app_assoc.
Qed.

Lemma mapM_run {A B} (f : A -> M B) (g : A -> B) (h : A -> list string) :
  (forall x tr, f x tr = (Ok (g x), (tr ++ h x)%list)) ->
  forall l tr, mapM f l tr = (Ok (map g l), (tr ++ flat_map h l)%list).
Proof.
  intros Hf l; induction l as [|x l IH]; intro tr; simpl.
  - unfold ret. now rewrite app_nil_r.
  - unfold bind. rewrite Hf, IH. unfold ret. now rewrite app_assoc.
Qed.

Lemma getRepoContributors_base_ok loc net repoName githubToken resp data tr :
  net (contributors_url repoName) ("Bearer " ++ githubToken) = Some resp ->
  ok resp = true ->
  body resp = Some (JArr data) ->
  getRepoContributors loc net repoName githubToken tr
  = (Ok (filter_nonnull (map (contributor_result net repoName ("Bearer " ++ githubToken))
                                (firstn 50 data))),
     (tr ++ [contributors_url repoName]
         ++ flat_map (detail_urls repoName) (firstn 50 data))%list).
Proof.
  intros Hnet Hok Hbody.
  unfold getRepoContributors, catch, bind, safeFetch, lift, json_body.
  rewrite Hnet, Hok, Hbody. simpl.
  unfold bind.
  rewrite (mapM_run _ _ _ (contributorInfo_run net repoName ("Bearer " ++ githubToken))).
  unfold ret. now rewrite <- app_assoc.
Qed.

Lemma getRepoContributors_inv loc net repoName githubToken tr out tr' :
  getRepoContributors loc net repoName githubToken tr = (Ok out, tr') ->
  exists resp data,
    net (contributors_url repoName) ("Bearer " ++ githubToken) = Some resp /\
    ok resp = true /\ body resp = Some (JArr data) /\
    out = filter_nonnull (map (contributor_result net repoName ("Bearer " ++ githubToken))
                              (firstn 50 data)).
Proof.
  intro H.
  destruct (net (contributors_url repoName) ("Bearer " ++ githubToken)) as [resp|] eqn:Hnet;
    [|unfold getRepoContributors, catch, bind, safeFetch in H; rewrite Hnet in H; discriminate].
  destruct (ok resp) eqn:Hok;
    [|unfold getRepoContributors, catch, bind, safeFetch in H; rewrite Hnet, Hok in H; discriminate].
  destruct (body resp) as [j|] eqn:Hbody;
    [|unfold getRepoContributors, catch, bind, safeFetch, lift, json_body in H;
      rewrite Hnet, Hok, Hbody in H; discriminate].
  destruct j as [| | | |data| |];
    try (unfold getRepoContributors, catch, bind, safeFetch, lift, json_body in H;
         rewrite Hnet, Hok, Hbody in H; discriminate).
  exists resp, data. repeat split; auto.
  rewrite (getRepoContributors_base_ok loc net repoName githubToken resp data tr Hnet Hok Hbody) in H.
  congruence.
Qed.

Lemma kept_in_order_filter_nonnull {A B} (f : A -> option B) l :
  kept_in_order (fun a b => f a = Some b) l (filter_nonnull (map f l)).
Proof.
  induction l as [|a l IH]; simpl; [constructor|].
  destruct (f a) eqn:E; [apply kio_keep | apply kio_drop]; auto.
Qed.

Lemma kept_in_order_length {A B} (R : A -> B -> Prop) l out :
  kept_in_order R l out -> length out <= length l.
Proof. induction 1; simpl; lia. Qed.

Lemma kept_in_order_weaken {A B} (R R' : A -> B -> Prop) l out :
  (forall a b, R a b -> R' a b) -> kept_in_order R l out -> kept_in_order R' l out.
Proof. intros HR; induction 1; [apply kio_nil | apply kio_drop | apply kio_keep]; auto. Qed.

Lemma kept_in_order_incl {A B K} (f : A -> option K) (g : B -> K) l out :
  kept_in_order (fun a b => f a = Some (g b)) l out ->
  forall k, In k (map g out) -> In k (filter_nonnull (map f l)).
Proof.
  induction 1 as [|a l out _ IH|a b l out Hab _ IH]; simpl; intros k Hk; [tauto| |].
  - destruct (f a); simpl; auto.
  - rewrite Hab; simpl. destruct Hk; auto.
Qed.

Lemma kept_in_order_NoDup {A B K} (f : A -> option K) (g : B -> K) l out :
  kept_in_order (fun a b => f a = Some (g b)) l out ->
  NoDup (filter_nonnull (map f l)) -> NoDup (map g out).
Proof.
  induction 1 as [|a l out _ IH|a b l out Hab Hk IH]; simpl; intro Hnd.
  - constructor.
  - apply IH. destruct (f a); simpl in Hnd; auto. now inversion Hnd.
  - rewrite Hab in Hnd; simpl in Hnd. inversion Hnd as [|x xs Hnin Hnd' Heq]; subst.
    constructor; auto.
    intro Hin. apply Hnin. exact (kept_in_order_incl f g l out Hk _ Hin).
Qed.

(** Every record [contributor_result] yields: the login, the placeholder
    counters and the commit count of its entry. *)
Lemma contributor_result_fields net repoName auth e r :
  contributor_result net repoName auth e = Some r ->
  login_of e = Some (username r) /\
  pullRequests (activities r) = 0%Z /\ issuesOpened (activities r) = 0%Z /\
  exists c, get_prop e "contributions" = Ok c /\ commits (activities r) = js_or c (JNum 0).
Proof.
  unfold contributor_result. destruct (login_of e) as [user|] eqn:Hl; [|discriminate].
  unfold processContributor.
  destruct (processUser _); simpl; [discriminate|].
  destruct (processPermission _); simpl; [discriminate|].
  destruct (processRepos _ _); simpl; [discriminate|].
  destruct (get_prop e "contributions") as [|c] eqn:Hc; simpl; [discriminate|].
  intro H; injection H as <-; simpl. repeat split; eauto.
Qed.

(** ** C1: at most 50 records, in the order of the truncated list *)

(** C1. When the base contributor-list call succeeds and its body is an
    array [data], the service returns a list of at most 50 records, obtained
    from the first 50 entries of [data] by dropping some of them and replacing
    each kept entry by its own record, in the same relative order. *)
Theorem getRepoContributors_cap_and_order loc net repoName githubToken resp data tr :
  net (contributors_url repoName) ("Bearer " ++ githubToken) = Some resp ->
  ok resp = true ->
  body resp = Some (JArr data) ->
  exists out tr',
    getRepoContributors loc net repoName githubToken tr = (Ok out, tr') /\
    length out <= 50 /\
    kept_in_order (fun e r => contributor_result net repoName ("Bearer " ++ githubToken) e = Some r)
                  (firstn 50 data) out.
Proof.
  intros Hnet Hok Hbody.
  do 2 eexists. split; [exact (getRepoContributors_base_ok loc net repoName githubToken resp data tr Hnet Hok Hbody)|].
  pose proof (kept_in_order_filter_nonnull
                (contributor_result net repoName ("Bearer " ++ githubToken)) (firstn 50 data)) as Hk.
  split; [|exact Hk].
  apply kept_in_order_length in Hk. pose proof (firstn_le_length 50 data). lia.
Qed.

Lemma getRepoContributors_cap_and_order_witness :
  length many_contributors = 56 /\
  exists out tr',
    getRepoContributors loc_time net_many "octocat/Hello-World" "t" [] = (Ok out, tr') /\
    length out <= 50 /\
    kept_in_order (fun e r => contributor_result net_many "octocat/Hello-World" ("Bearer " ++ "t") e = Some r)
                  (firstn 50 many_contributors) out /\
    map username out = map (fun n => "u" ++ dec_of_nat n) (seq 1 49).
Proof.
  split; [reflexivity|].
  destruct (getRepoContributors_cap_and_order loc_time net_many "octocat/Hello-World" "t"
              (mkResp 200 [] (Some (JArr many_contributors))) many_contributors []
              ltac:(vm_compute; reflexivity) eq_refl eq_refl)
    as (out & tr' & Hrun & Hlen & Hk).
  exists out, tr'. split; [exact Hrun|]. split; [exact Hlen|]. split; [exact Hk|].
  pose proof Hrun as E. vm_compute in E. injection E as <- _.
  vm_compute. reflexivity.
Defined.

(** ** C10: activity counters *)

(** C10. In every list the service returns, each record has
    [pullRequests = 0] and [issuesOpened = 0], and [commits] is the
    [contributions] field of its own entry of the truncated base list when
    that field is truthy, and 0 otherwise ([contributions || 0]). *)
Theorem getRepoContributors_activities loc net repoName githubToken tr out tr' :
  getRepoContributors loc net repoName githubToken tr = (Ok out, tr') ->
  exists resp data,
    net (contributors_url repoName) ("Bearer " ++ githubToken) = Some resp /\
    body resp = Some (JArr data) /\
    kept_in_order (fun e r =>
        login_of e = Some (username r) /\
        pullRequests (activities r) = 0%Z /\ issuesOpened (activities r) = 0%Z /\
        exists c, get_prop e "contributions" = Ok c /\ commits (activities r) = js_or c (JNum 0))
      (firstn 50 data) out.
Proof.
  intro H. apply getRepoContributors_inv in H as (resp & data & Hnet & _ & Hbody & ->).
  exists resp, data. split; [exact Hnet|]. split; [exact Hbody|].
  eapply kept_in_order_weaken; [|apply kept_in_order_filter_nonnull].
  intros a b Hab. exact (contributor_result_fields _ _ _ _ _ Hab).
Qed.

Lemma getRepoContributors_activities_witness :
  match getRepoContributors loc_time net_one "octocat/Hello-World" "t" [] with
  | (Ok out, _) =>
      exists resp data,
        net_one (contributors_url "octocat/Hello-World") ("Bearer " ++ "t") = Some resp /\
        body resp = Some (JArr data) /\
        kept_in_order (fun e r =>
            login_of e = Some (username r) /\
            pullRequests (activities r) = 0%Z /\ issuesOpened (activities r) = 0%Z /\
            exists c, get_prop e "contributions" = Ok c /\ commits (activities r) = js_or c (JNum 0))
          (firstn 50 data) out
  | (Throw _, _) => False
  end.
Proof.
  destruct (getRepoContributors loc_time net_one "octocat/Hello-World" "t" []) as [[e|out] tr'] eqn:E.
  - vm_compute in E. discriminate.
  - exact (getRepoContributors_activities loc_time net_one "octocat/Hello-World" "t" [] out tr' E).
Defined.

(** ** C7: duplicate usernames *)

(** C7, counterexample: a base list naming the login ["a"] twice yields two
    records with the username ["a"]. *)
Lemma getRepoContributors_duplicate_logins :
  match fst (getRepoContributors loc_time net_dup "octocat/Hello-World" "t" []) with
  | Ok out => map username out = ["a"; "a"] /\ ~ NoDup (map username out)
  | Throw _ => False
  end.
Proof.
  vm_compute. split; [reflexivity|].
  intro H. inversion H as [|x xs Hnin _]; subst. apply Hnin. now left.
Qed.

(** C7, as amended. The service does not deduplicate: the usernames of its
    records are the logins of the kept entries of the truncated base list, in
    order; so they are pairwise distinct whenever the valid logins of the
    first 50 entries are. *)
Theorem getRepoContributors_usernames loc net repoName githubToken resp data tr :
  net (contributors_url repoName) ("Bearer " ++ githubToken) = Some resp ->
  ok resp = true ->
  body resp = Some (JArr data) ->
  exists out tr',
    getRepoContributors loc net repoName githubToken tr = (Ok out, tr') /\
    kept_in_order (fun e r => login_of e = Some (username r)) (firstn 50 data) out /\
    (NoDup (filter_nonnull (map login_of (firstn 50 data))) -> NoDup (map username out)).
Proof.
  intros Hnet Hok Hbody.
  do 2 eexists. split; [exact (getRepoContributors_base_ok loc net repoName githubToken resp data tr Hnet Hok Hbody)|].
  assert (Hk : kept_in_order (fun e r => login_of e = Some (username r)) (firstn 50 data)
     (filter_nonnull (map (contributor_result net repoName ("Bearer " ++ githubToken)) (firstn 50 data)))).
  { eapply kept_in_order_weaken; [|apply kept_in_order_filter_nonnull].
    intros a b Hab. exact (proj1 (contributor_result_fields _ _ _ _ _ Hab)). }
  split; [exact Hk|].
  exact (kept_in_order_NoDup login_of username _ _ Hk).
Qed.

Lemma getRepoContributors_usernames_witness :
  exists out tr',
    getRepoContributors loc_time net_many "octocat/Hello-World" "t" [] = (Ok out, tr') /\
    kept_in_order (fun e r => login_of e = Some (username r)) (firstn 50 many_contributors) out /\
    NoDup (map username out) /\ length out = 49.
Proof.
  destruct (getRepoContributors_usernames loc_time net_many "octocat/Hello-World" "t"
              (mkResp 200 [] (Some (JArr many_contributors))) many_contributors []
              ltac:(vm_compute; reflexivity) eq_refl eq_refl)
    as (out & tr' & Hrun & Hk & Hnd).
  exists out, tr'. split; [exact Hrun|]. split; [exact Hk|]. split.
  - apply Hnd. vm_compute.
    repeat (apply NoDup_cons;
            [simpl; intro H; repeat (destruct H as [H|H]; [discriminate H|]); exact H|]).
    apply NoDup_nil.
  - pose proof Hrun as E. vm_compute in E. injection E as <- _. reflexivity.
Defined.

(** ** Per-facet lemmas *)

Lemma login_of_obj e user : login_of e = Some user -> exists fs, e = JObj fs.
Proof.
  unfold login_of, get_prop. destruct (truthy_json e); [|discriminate].
  destruct e; try discriminate. eauto.
Qed.

Lemma processUser_failed o : request_failed o -> processUser (settled_of o) = Ok [].
Proof. destruct o as [r|]; simpl; [intros ->|]; reflexivity. Qed.

Lemma processPermission_failed o :
  request_failed o -> processPermission (settled_of o) = Ok (mkRole "Contributor" []).
Proof. destruct o as [r|]; simpl; [intros ->|]; reflexivity. Qed.

Lemma processRepos_failed repoName o :
  request_failed o -> processRepos repoName (settled_of o) = Ok [].
Proof. destruct o as [r|]; simpl; [intros ->|]; reflexivity. Qed.

Lemma res_filterM_spec {A} (p : A -> Res bool) l kept :
  res_filterM p l = Ok kept -> length kept <= length l /\ Forall (fun x => p x = Ok true) kept.
Proof.
  revert kept; induction l as [|x l IH]; simpl; intros kept H.
  - injection H as <-. split; [simpl; lia | constructor].
  - destruct (p x) as [|b] eqn:Hp; simpl in H; [discriminate|].
    destruct (res_filterM p l) as [|ys] eqn:Hr; simpl in H; [discriminate|].
    injection H as <-. destruct (IH ys eq_refl) as [Hlen Hall].
    destruct b; simpl; split; auto; lia.
Qed.

Lemma res_mapM_spec {A B} (f : A -> Res B) l ys :
  res_mapM f l = Ok ys -> Forall2 (fun x y => f x = Ok y) l ys.
Proof.
  revert ys; induction l as [|x l IH]; simpl; intros ys H.
  - injection H as <-. constructor.
  - destruct (f x) as [|y] eqn:Hf; simpl in H; [discriminate|].
    destruct (res_mapM f l) as [|zs] eqn:Hr; simpl in H; [discriminate|].
    injection H as <-. constructor; auto.
Qed.

Lemma repo_entry_name repo g : repo_entry repo = Ok g -> get_prop repo "full_name" = Ok (name g).
Proof.
  unfold repo_entry.
  destruct (get_prop repo "permissions") as [|perms]; simpl; [discriminate|].
  destruct (match perms with
            | Some p => if truthy_json p then _ else Ok "Read"
            | None => Ok "Read"
            end); simpl; [discriminate|].
  destruct (get_prop repo "full_name") as [|fn]; simpl; [discriminate|].
  destruct (get_prop repo "html_url"); simpl; [discriminate|].
  intro H; injection H as <-. reflexivity.
Qed.

(** The external repositories: none named like the target, at most as many
    as the endpoint listed. *)
Lemma processRepos_spec repoName o ext :
  processRepos repoName (settled_of o) = Ok ext ->
  Forall (fun g => strict_eq_str (name g) repoName = false) ext /\
  length ext <= match o with
                | Some r => match body r with Some (JArr l) => length l | _ => 0 end
                | None => 0
                end.
Proof.
  destruct o as [r|]; simpl; [|intro H; injection H as <-; split; [apply Forall_nil | simpl; lia]].
  destruct (ok r); [|intro H; injection H as <-; split; [apply Forall_nil | simpl; lia]].
  unfold json_body. destruct (body r) as [j|]; simpl; [|discriminate].
  destruct j as [| | | |repos| |]; try (intro H; injection H as <-; split; [apply Forall_nil | simpl; lia]).
  destruct (res_filterM _ repos) as [|kept] eqn:Hf; simpl; [discriminate|].
  intro Hm. apply res_mapM_spec in Hm.
  apply res_filterM_spec in Hf as [Hlen Hall].
  split; [|rewrite <- (Forall2_length Hm); exact Hlen].
  clear Hlen. induction Hm as [|x g kept ext Hxg _ IH]; [constructor|].
  inversion Hall as [|x' kept' Hx Hall']; subst. constructor; auto.
  apply repo_entry_name in Hxg. rewrite Hxg in Hx. simpl in Hx.
  injection Hx as Hx. now destruct (strict_eq_str (name g) repoName).
Qed.

Lemma contributor_result_repos net repoName auth e r :
  contributor_result net repoName auth e = Some r ->
  processRepos repoName (settled_of (net (user_repos_url (username r)) auth)) = Ok (externalRepos r).
Proof.
  intro H. destruct (contributor_result_fields _ _ _ _ _ H) as [Hl _].
  revert H. unfold contributor_result. rewrite Hl. unfold processContributor.
  destruct (processUser _); simpl; [discriminate|].
  destruct (processPermission _); simpl; [discriminate|].
  destruct (processRepos _ _) eqn:Hr; simpl; [discriminate|].
  destruct (get_prop e "contributions"); simpl; [discriminate|].
  intro H; injection H as <-. reflexivity.
Qed.

Lemma In_filter_nonnull {A B} (f : A -> option B) l r :
  In r (filter_nonnull (map f l)) -> exists a, In a l /\ f a = Some r.
Proof.
  induction l as [|a l IH]; simpl; [tauto|].
  destruct (f a) eqn:E; simpl.
  - intros [<-|H]; [eauto|]. destruct (IH H) as (a' & ? & ?); eauto.
  - intro H. destruct (IH H) as (a' & ? & ?); eauto.
Qed.

Lemma request_failed_or_ok (o : option response) :
  request_failed o \/ exists r, o = Some r /\ ok r = true.
Proof. destruct o as [r|]; simpl; [destruct (ok r) eqn:E; eauto|auto]. Qed.

(** All three sub-requests failing gives the record of defaults. *)
Lemma contributor_result_all_failed net repoName auth e user :
  login_of e = Some user ->
  request_failed (net (user_url user) auth) ->
  request_failed (net (permission_url repoName user) auth) ->
  request_failed (net (user_repos_url user) auth) ->
  exists c, get_prop e "contributions" = Ok c /\
    contributor_result net repoName auth e
    = Some (mkContributorInfo user (mkRole "Contributor" []) (mkActivities 0 (js_or c (JNum 0)) 0) [] []).
Proof.
  intros Hl Hu Hp Hr.
  destruct (login_of_obj e user Hl) as [fs ->].
  exists (obj_get fs "contributions"). split; [reflexivity|].
  unfold contributor_result. rewrite Hl. unfold processContributor.
  rewrite (processUser_failed _ Hu), (processPermission_failed _ Hp), (processRepos_failed _ _ Hr).
  reflexivity.
Qed.

(** A thrown processing of the settled results comes from one of the three
    responses: a 2xx one whose processing throws. *)
Lemma processContributor_throws_inv repoName fs user o1 o2 o3 err :
  processContributor repoName (JObj fs) user (settled_of o1) (settled_of o2) (settled_of o3)
  = Throw err ->
  (exists r, o1 = Some r /\ ok r = true /\ exists err', processUser (Fulfilled r) = Throw err') \/
  (exists r, o2 = Some r /\ ok r = true /\ exists err', processPermission (Fulfilled r) = Throw err') \/
  (exists r, o3 = Some r /\ ok r = true /\
             exists err', processRepos repoName (Fulfilled r) = Throw err').
Proof.
  unfold processContributor. intro H.
  destruct (processUser (settled_of o1)) as [e1|] eqn:E1.
  { left. destruct (request_failed_or_ok o1) as [Hf|(r & -> & Hok)];
      [rewrite (processUser_failed _ Hf) in E1; discriminate|eauto]. }
  simpl in H. destruct (processPermission (settled_of o2)) as [e2|] eqn:E2.
  { right; left. destruct (request_failed_or_ok o2) as [Hf|(r & -> & Hok)];
      [rewrite (processPermission_failed _ Hf) in E2; discriminate|eauto]. }
  simpl in H. destruct (processRepos repoName (settled_of o3)) as [e3|] eqn:E3.
  { right; right. destruct (request_failed_or_ok o3) as [Hf|(r & -> & Hok)];
      [rewrite (processRepos_failed _ _ Hf) in E3; discriminate|eauto]. }
  simpl in H. discriminate.
Qed.

(** ** C2: failed sub-requests are absorbed as defaults *)

(** C2. For an entry with a valid login [user]: if the user-profile, the
    collaborator-permission and the user-repos requests all fail (network
    error, or a non-2xx answer), the detail fetcher resolves to the record
    [{username: user, role: "Contributor", permissions: [], commits:
    contributions || 0, externalRepos: [], emails: []}]; it resolves to
    [null] only when one of the three requests answered 2xx and the
    processing of that answer threw; and the processing of a failed request
    never throws (it gives the defaults), so a failed request never makes the
    fetcher resolve to [null]. *)
Theorem contributorInfo_absorbs_failures net repoName auth e user tr :
  login_of e = Some user ->
  (request_failed (net (user_url user) auth) ->
   request_failed (net (permission_url repoName user) auth) ->
   request_failed (net (user_repos_url user) auth) ->
   exists c, get_prop e "contributions" = Ok c /\
     contributorInfo net repoName auth e tr
     = (Ok (Some (mkContributorInfo user (mkRole "Contributor" [])
                    (mkActivities 0 (js_or c (JNum 0)) 0) [] [])),
        (tr ++ [user_url user; permission_url repoName user; user_repos_url user])%list)) /\
  (forall tr', contributorInfo net repoName auth e tr = (Ok None, tr') ->
   exists r,
     (net (user_url user) auth = Some r /\ ok r = true /\
      exists err, processUser (Fulfilled r) = Throw err) \/
     (net (permission_url repoName user) auth = Some r /\ ok r = true /\
      exists err, processPermission (Fulfilled r) = Throw err) \/
     (net (user_repos_url user) auth = Some r /\ ok r = true /\
      exists err, processRepos repoName (Fulfilled r) = Throw err)) /\
  (forall o, request_failed o ->
   processUser (settled_of o) = Ok [] /\
   processPermission (settled_of o) = Ok (mkRole "Contributor" []) /\
   processRepos repoName (settled_of o) = Ok []).
Proof.
  intro Hl. split; [|split].
  - intros Hu Hp Hr.
    destruct (contributor_result_all_failed net repoName auth e user Hl Hu Hp Hr) as (c & Hc & Hres).
    exists c. split; [exact Hc|].
    rewrite contributorInfo_run, Hres. unfold detail_urls. now rewrite Hl.
  - intros tr' H. rewrite contributorInfo_run in H. injection H as Hnone _.
    destruct (login_of_obj e user Hl) as [fs Hfs].
    unfold contributor_result in Hnone. rewrite Hl in Hnone.
    destruct (processContributor repoName e user _ _ _) as [err|] eqn:E; [|discriminate].
    rewrite Hfs in E.
    destruct (processContributor_throws_inv _ _ _ _ _ _ _ E)
      as [(r & Hr & Hok & Ht)|[(r & Hr & Hok & Ht)|(r & Hr & Hok & Ht)]];
      exists r; auto.
  - intros o Hf. split; [|split].
    + exact (processUser_failed o Hf).
    + exact (processPermission_failed o Hf).
    + exact (processRepos_failed repoName o Hf).
Qed.

Lemma contributorInfo_absorbs_failures_witness :
  (login_of (JObj [("login", JStr "a"); ("contributions", JNum 10)]) = Some "a" /\
   exists c, get_prop (JObj [("login", JStr "a"); ("contributions", JNum 10)]) "contributions" = Ok c /\
     contributorInfo net_one "octocat/Hello-World" ("Bearer " ++ "t")
       (JObj [("login", JStr "a"); ("contributions", JNum 10)]) []
     = (Ok (Some (mkContributorInfo "a" (mkRole "Contributor" [])
                    (mkActivities 0 (js_or c (JNum 0)) 0) [] [])),
        ([] ++ [user_url "a"; permission_url "octocat/Hello-World" "a"; user_repos_url "a"])%list)) /\
  (contributorInfo net_bad_profile "octocat/Hello-World" ("Bearer " ++ "t")
     (JObj [("login", JStr "a"); ("contributions", JNum 10)]) []
   = (Ok None, [user_url "a"; permission_url "octocat/Hello-World" "a"; user_repos_url "a"]) /\
   exists r,
     (net_bad_profile (user_url "a") ("Bearer " ++ "t") = Some r /\ ok r = true /\
      exists err, processUser (Fulfilled r) = Throw err) \/
     (net_bad_profile (permission_url "octocat/Hello-World" "a") ("Bearer " ++ "t") = Some r /\
      ok r = true /\ exists err, processPermission (Fulfilled r) = Throw err) \/
     (net_bad_profile (user_repos_url "a") ("Bearer " ++ "t") = Some r /\ ok r = true /\
      exists err, processRepos "octocat/Hello-World" (Fulfilled r) = Throw err)).
Proof.
  split.
  - split; [reflexivity|].
    apply (proj1 (contributorInfo_absorbs_failures net_one "octocat/Hello-World" ("Bearer " ++ "t")
                    (JObj [("login", JStr "a"); ("contributions", JNum 10)]) "a" [] eq_refl));
      vm_compute; exact I.
  - split; [vm_compute; reflexivity|].
    apply (proj1 (proj2 (contributorInfo_absorbs_failures net_bad_profile "octocat/Hello-World"
                           ("Bearer " ++ "t") (JObj [("login", JStr "a"); ("contributions", JNum 10)])
                           "a" [] eq_refl))
                 [user_url "a"; permission_url "octocat/Hello-World" "a"; user_repos_url "a"]).
    vm_compute. reflexivity.
Defined.

(** ** C5: a 404 on the permission lookup *)

(** C5. When the collaborator-permission lookup of a contributor answers
    404, processing that answer gives role ["Contributor"] and no
    permissions without throwing, the detail fetcher does not throw, and the
    record it yields (if any) has that role and no permissions. *)
Theorem contributorInfo_permission_404 net repoName auth e user r tr :
  login_of e = Some user ->
  net (permission_url repoName user) auth = Some r ->
  status r = 404%Z ->
  processPermission (Fulfilled r) = Ok (mkRole "Contributor" []) /\
  (exists v tr', contributorInfo net repoName auth e tr = (Ok v, tr')) /\
  (forall info tr', contributorInfo net repoName auth e tr = (Ok (Some info), tr') ->
   roleInfo info = mkRole "Contributor" []).
Proof.
  intros Hl Hnet Hst.
  assert (Hfail : request_failed (net (permission_url repoName user) auth))
    by (rewrite Hnet; simpl; unfold ok; now rewrite Hst).
  pose proof (processPermission_failed _ Hfail) as Hperm. rewrite Hnet in Hperm.
  split; [exact Hperm|]. split; [rewrite contributorInfo_run; eauto|].
  intros info tr' H. rewrite contributorInfo_run in H. injection H as Hres _.
  revert Hres. unfold contributor_result. rewrite Hl. unfold processContributor.
  rewrite Hnet, Hperm.
  destruct (processUser _); simpl; [discriminate|].
  destruct (processRepos _ _); simpl; [discriminate|].
  destruct (get_prop e "contributions"); simpl; [discriminate|].
  intro H; injection H as <-. reflexivity.
Qed.

Lemma contributorInfo_permission_404_witness :
  processPermission (Fulfilled (mkResponse 404 "Not Found" [] (Some (JObj [("message", JStr "Not Found")]))))
    = Ok (mkRole "Contributor" []) /\
  (exists v tr', contributorInfo net_perm404 "octocat/Hello-World" "Bearer t"
                   (JObj [("login", JStr "a"); ("contributions", JNum 2)]) [] = (Ok v, tr')) /\
  match contributorInfo net_perm404 "octocat/Hello-World" "Bearer t"
          (JObj [("login", JStr "a"); ("contributions", JNum 2)]) [] with
  | (Ok (Some info), _) => roleInfo info = mkRole "Contributor" []
  | _ => False
  end.
Proof.
  destruct (contributorInfo_permission_404 net_perm404 "octocat/Hello-World" "Bearer t"
              (JObj [("login", JStr "a"); ("contributions", JNum 2)]) "a"
              (mkResponse 404 "Not Found" [] (Some (JObj [("message", JStr "Not Found")]))) [])
    as (Hperm & Hrun & Hrole); try reflexivity.
  split; [exact Hperm|]. split; [exact Hrun|].
  destruct (contributorInfo net_perm404 "octocat/Hello-World" "Bearer t"
              (JObj [("login", JStr "a"); ("contributions", JNum 2)]) []) as [[e|[info|]] tr'] eqn:E;
    try (vm_compute in E; discriminate).
  exact (Hrole info tr' eq_refl).
Defined.

(** ** C6: external repositories *)

(** C6, counterexample: the user-repos endpoint lists six repositories, none
    of them the target; the record of ["a"] has six external repositories. *)
Lemma getRepoContributors_six_external_repos :
  match fst (getRepoContributors loc_time net_six "octocat/Hello-World" "t" []) with
  | Ok [r] => length (externalRepos r) = 6
  | _ => False
  end.
Proof. vm_compute. reflexivity. Qed.

(** C6, as amended. In every record, no external repository has a full name
    equal ([===]) to the queried repository string, and there are at most as
    many external repositories as the user-repos endpoint listed: the code
    does not truncate, it relies on the [per_page=5] of that request. *)
Theorem getRepoContributors_externalRepos loc net repoName githubToken tr out tr' :
  getRepoContributors loc net repoName githubToken tr = (Ok out, tr') ->
  Forall (fun r =>
    Forall (fun g => strict_eq_str (name g) repoName = false) (externalRepos r) /\
    length (externalRepos r) <= repos_listed net ("Bearer " ++ githubToken) (username r)) out.
Proof.
  intro H. apply getRepoContributors_inv in H as (resp & data & _ & _ & _ & ->).
  apply Forall_forall. intros r Hin.
  apply In_filter_nonnull in Hin as (e & _ & He).
  apply contributor_result_repos in He. apply processRepos_spec in He.
  exact He.
Qed.

Lemma getRepoContributors_externalRepos_witness :
  match getRepoContributors loc_time net_six "octocat/Hello-World" "t" [] with
  | (Ok out, _) =>
      Forall (fun r =>
        Forall (fun g => strict_eq_str (name g) "octocat/Hello-World" = false) (externalRepos r) /\
        length (externalRepos r) <= repos_listed net_six ("Bearer " ++ "t") (username r)) out
  | (Throw _, _) => False
  end.
Proof.
  destruct (getRepoContributors loc_time net_six "octocat/Hello-World" "t" []) as [[e|out] tr'] eqn:E.
  - vm_compute in E. discriminate.
  - exact (getRepoContributors_externalRepos loc_time net_six "octocat/Hello-World" "t" [] out tr' E).
Defined.

(** ** The classifier *)

Lemma resetTime_parsed loc s n :
  parseInt10 s = Some n -> (Z.abs (n * 1000) <= 8640000000000000)%Z ->
  resetTime loc (Some s) = loc (n * 1000)%Z.
Proof.
  intros Hp Hr. unfold resetTime.
  destruct (String.eqb s "") eqn:E; [apply String.eqb_eq in E; subst; discriminate|].
  rewrite Hp. now apply Z.leb_le in Hr as ->.
Qed.

Lemma resetTime_unparsable loc s :
  s <> "" -> parseInt10 s = None -> resetTime loc (Some s) = "Invalid Date".
Proof.
  intros Hne Hp. unfold resetTime. apply String.eqb_neq in Hne. now rewrite Hne, Hp.
Qed.

Lemma resetTime_out_of_range loc s n :
  parseInt10 s = Some n -> (Z.abs (n * 1000) > 8640000000000000)%Z ->
  resetTime loc (Some s) = "Invalid Date".
Proof.
  intros Hp Hr. unfold resetTime.
  destruct (String.eqb s "") eqn:E; [apply String.eqb_eq in E; subst; discriminate|].
  rewrite Hp. destruct (Z.leb_spec (Z.abs (n * 1000)) 8640000000000000); [lia|reflexivity].
Qed.

Lemma handleApiError_rate_limited loc r context :
  status r = 403%Z ->
  header_get (headers r) "X-RateLimit-Remaining" = Some "0" ->
  handleApiError loc r context
  = ErrorMsg ("GitHub API rate limit exceeded. Please wait and try again after "
              ++ resetTime loc (header_get (headers r) "X-RateLimit-Reset") ++ ".").
Proof. intros Hs Hh. unfold handleApiError. rewrite Hs, Hh. reflexivity. Qed.

Lemma ok_403 r : status r = 403%Z -> ok r = false.
Proof. intro H. unfold ok. now rewrite H. Qed.

(** ** C3: the API error classifier *)

(** C3, counterexample: a 403 with [X-RateLimit-Remaining: 0] and no
    [X-RateLimit-Reset] header; the message names no time, only
    ["unknown time"]. *)
Lemma handleApiError_no_reset_header :
  header_get (headers resp_rate_limited_no_reset) "X-RateLimit-Reset" = None /\
  handleApiError loc_time resp_rate_limited_no_reset "fetching contributors for octocat/Hello-World"
  = ErrorMsg "GitHub API rate limit exceeded. Please wait and try again after unknown time.".
Proof. split; reflexivity. Qed.

(** C3, as amended. For a non-2xx response, in priority order: 404 gives the
    not-found message naming the context; 401 the authentication message; 403
    with [X-RateLimit-Remaining] equal to ["0"] the rate-limit message, which
    carries the locale time of the instant [n * 1000] ms when the
    [X-RateLimit-Reset] header parses ([parseInt], base 10) to an integer [n]
    with [|n * 1000|] at most 8.64e15 ms (the range of a [Date]), ["Invalid
    Date"] when the header is non-empty and does not parse or lies out of
    that range, and ["unknown time"] when the header is absent or empty; any
    other 403 the insufficient-permissions message;
    any other status the generic message with the status, the status text and
    the context. *)
Theorem handleApiError_classification loc r context :
  ok r = false ->
  (status r = 404%Z ->
   handleApiError loc r context
   = ErrorMsg ("Resource not found (" ++ context ++ "). Please check the repository name or username.")) /\
  (status r = 401%Z ->
   handleApiError loc r context = ErrorMsg "Authentication failed. Please check your GitHub token.") /\
  (status r = 403%Z -> header_get (headers r) "X-RateLimit-Remaining" = Some "0" ->
   (forall s n, header_get (headers r) "X-RateLimit-Reset" = Some s -> parseInt10 s = Some n ->
      (Z.abs (n * 1000) <= 8640000000000000)%Z ->
      handleApiError loc r context
      = ErrorMsg ("GitHub API rate limit exceeded. Please wait and try again after "
                  ++ loc (n * 1000)%Z ++ ".")) /\
   (header_get (headers r) "X-RateLimit-Reset" = None ->
      handleApiError loc r context
      = ErrorMsg "GitHub API rate limit exceeded. Please wait and try again after unknown time.") /\
   (header_get (headers r) "X-RateLimit-Reset" = Some "" ->
      handleApiError loc r context
      = ErrorMsg "GitHub API rate limit exceeded. Please wait and try again after unknown time.") /\
   (forall s, header_get (headers r) "X-RateLimit-Reset" = Some s -> s <> "" -> parseInt10 s = None ->
      handleApiError loc r context
      = ErrorMsg "GitHub API rate limit exceeded. Please wait and try again after Invalid Date.") /\
   (forall s n, header_get (headers r) "X-RateLimit-Reset" = Some s -> parseInt10 s = Some n ->
      (Z.abs (n * 1000) > 8640000000000000)%Z ->
      handleApiError loc r context
      = ErrorMsg "GitHub API rate limit exceeded. Please wait and try again after Invalid Date.")) /\
  (status r = 403%Z -> header_get (headers r) "X-RateLimit-Remaining" <> Some "0" ->
   handleApiError loc r context
   = ErrorMsg "Insufficient permissions. Your token may lack the required scopes (e.g., repo access) or access to this specific resource.") /\
  (status r <> 404%Z -> status r <> 401%Z -> status r <> 403%Z ->
   handleApiError loc r context
   = ErrorMsg ("Failed " ++ context ++ ": GitHub API responded with "
               ++ dec_of_Z (status r) ++ " " ++ statusText r)).
Proof.
  intros _. split; [|split; [|split; [|split]]].
  - intro H. unfold handleApiError. now rewrite H.
  - intro H. unfold handleApiError. now rewrite H.
  - intros H Hh. rewrite (handleApiError_rate_limited loc r context H Hh). split.
    + intros s n Hs Hp Hr. rewrite Hs, (resetTime_parsed loc s n Hp Hr). reflexivity.
    + split; [|split; [|split]].
      * intro Hn. now rewrite Hn.
      * intro Hn. now rewrite Hn.
      * intros s Hs Hne Hp. rewrite Hs, (resetTime_unparsable loc s Hne Hp). reflexivity.
      * intros s n Hs Hp Hr. rewrite Hs, (resetTime_out_of_range loc s n Hp Hr). reflexivity.
  - intros H Hh. unfold handleApiError. rewrite H. simpl.
    destruct (header_get (headers r) "X-RateLimit-Remaining") as [v|]; [|reflexivity].
    simpl. destruct (String.eqb v "0") eqn:E; [|reflexivity].
    apply String.eqb_eq in E. subst. contradiction.
  - intros H1 H2 H3. unfold handleApiError.
    apply Z.eqb_neq in H1, H2, H3. now rewrite H1, H2, H3.
Qed.

Lemma handleApiError_classification_witness :
  (ok resp_rate_limited = false /\
   handleApiError loc_time resp_rate_limited "ctx"
   = ErrorMsg ("GitHub API rate limit exceeded. Please wait and try again after "
               ++ loc_time (1700000000 * 1000)%Z ++ ".")) /\
  (ok resp_rate_limited_far = false /\
   handleApiError loc_time resp_rate_limited_far "ctx"
   = ErrorMsg "GitHub API rate limit exceeded. Please wait and try again after Invalid Date.").
Proof.
  split; (split; [reflexivity|]).
  - apply (proj1 (proj1 (proj2 (proj2 (handleApiError_classification loc_time resp_rate_limited "ctx"
                                          eq_refl))) eq_refl eq_refl) "1700000000" 1700000000%Z);
      first [reflexivity | lia].
  - apply (proj2 (proj2 (proj2 (proj2 (proj1 (proj2 (proj2
             (handleApiError_classification loc_time resp_rate_limited_far "ctx" eq_refl)))
             eq_refl eq_refl)))) "9000000000000" 9000000000000%Z);
      first [reflexivity | lia].
Defined.

(** ** The server action *)

Lemma repoInputErrors_nonempty repo token :
  repo <> "" -> token <> "" -> repoInputErrors repo token = [].
Proof.
  intros Hr Ht. unfold repoInputErrors.
  apply String.eqb_neq in Hr, Ht. now rewrite Hr, Ht.
Qed.

(** The first request of a run is the contributor list. *)
Lemma getRepoContributors_trace loc net repoName githubToken tr :
  exists res tr',
    getRepoContributors loc net repoName githubToken tr
    = (res, (tr ++ [contributors_url repoName] ++ tr')%list).
Proof.
  destruct (net (contributors_url repoName) ("Bearer " ++ githubToken)) as [resp|] eqn:Hnet;
    [|unfold getRepoContributors, catch, bind, safeFetch; rewrite Hnet; simpl; exists (Throw (ErrorMsg "Network connection failed while trying to reach GitHub API.")), []; now rewrite ?app_nil_r].
  destruct (ok resp) eqn:Hok;
    [|unfold getRepoContributors, catch, bind, safeFetch, throw; rewrite Hnet, Hok; simpl; eexists; exists []; now rewrite ?app_nil_r].
  destruct (body resp) as [j|] eqn:Hbody;
    [|unfold getRepoContributors, catch, bind, safeFetch, lift, json_body, throw; rewrite Hnet, Hok, Hbody; simpl; eexists; exists []; now rewrite ?app_nil_r].
  destruct j as [| | | |data| |];
    try (unfold getRepoContributors, catch, bind, safeFetch, lift, json_body, throw, ret;
         rewrite Hnet, Hok, Hbody; simpl; eexists; exists []; now rewrite ?app_nil_r).
  rewrite (getRepoContributors_base_ok loc net repoName githubToken resp data tr Hnet Hok Hbody).
  eexists; eexists; reflexivity.
Qed.

(** ** C4: rate limiting at the orchestration boundary *)

(** C4, counterexample: the base call answers 403 with
    [X-RateLimit-Remaining: 0] and no reset header; the action fails with a
    message naming no time. *)
Lemma fetchContributorsAction_rate_limited_no_reset :
  fetchContributorsAction loc_time net_rate_limited_no_reset "octocat/Hello-World" "t" []
  = (Ok (Failure "GitHub API rate limit exceeded. Please wait and try again after unknown time."),
     [contributors_url "octocat/Hello-World"]).
Proof. vm_compute. reflexivity. Qed.

(** C4, as amended. When the base contributor-list call answers 403 with
    [X-RateLimit-Remaining] equal to ["0"], the action returns
    [{success: false}] (no exception escapes) with the rate-limit message,
    after that single request; the message carries the locale time of the
    instant [n * 1000] ms when the [X-RateLimit-Reset] header parses to an
    integer [n] (epoch seconds) with [|n * 1000|] at most 8.64e15 ms,
    ["Invalid Date"] when the header is non-empty and does not parse or lies
    out of that range, and ["unknown time"] when it is absent or empty. *)
Theorem fetchContributorsAction_rate_limited loc net repo token r tr :
  repo <> "" -> token <> "" ->
  net (contributors_url repo) ("Bearer " ++ token) = Some r ->
  status r = 403%Z ->
  header_get (headers r) "X-RateLimit-Remaining" = Some "0" ->
  fetchContributorsAction loc net repo token tr
  = (Ok (Failure ("GitHub API rate limit exceeded. Please wait and try again after "
                  ++ resetTime loc (header_get (headers r) "X-RateLimit-Reset") ++ ".")),
     (tr ++ [contributors_url repo])%list) /\
  (forall s n, header_get (headers r) "X-RateLimit-Reset" = Some s -> parseInt10 s = Some n ->
     (Z.abs (n * 1000) <= 8640000000000000)%Z ->
     resetTime loc (header_get (headers r) "X-RateLimit-Reset") = loc (n * 1000)%Z) /\
  (header_get (headers r) "X-RateLimit-Reset" = None ->
     resetTime loc (header_get (headers r) "X-RateLimit-Reset") = "unknown time") /\
  (header_get (headers r) "X-RateLimit-Reset" = Some "" ->
     resetTime loc (header_get (headers r) "X-RateLimit-Reset") = "unknown time") /\
  (forall s, header_get (headers r) "X-RateLimit-Reset" = Some s -> s <> "" -> parseInt10 s = None ->
     resetTime loc (header_get (headers r) "X-RateLimit-Reset") = "Invalid Date") /\
  (forall s n, header_get (headers r) "X-RateLimit-Reset" = Some s -> parseInt10 s = Some n ->
     (Z.abs (n * 1000) > 8640000000000000)%Z ->
     resetTime loc (header_get (headers r) "X-RateLimit-Reset") = "Invalid Date").
Proof.
  intros Hrepo Htok Hnet Hst Hh. split; [|split].
  - unfold fetchContributorsAction. rewrite (repoInputErrors_nonempty _ _ Hrepo Htok).
    unfold getRepoContributors, catch, bind, safeFetch, throw.
    rewrite Hnet, (ok_403 r Hst). simpl.
    rewrite (handleApiError_rate_limited loc r _ Hst Hh). reflexivity.
  - intros s n Hs Hp Hr. rewrite Hs. exact (resetTime_parsed loc s n Hp Hr).
  - split; [|split; [|split]].
    + intro Hn. now rewrite Hn.
    + intro Hn. now rewrite Hn.
    + intros s Hs Hne Hp. rewrite Hs. exact (resetTime_unparsable loc s Hne Hp).
    + intros s n Hs Hp Hr. rewrite Hs. exact (resetTime_out_of_range loc s n Hp Hr).
Qed.

Lemma fetchContributorsAction_rate_limited_witness :
  fetchContributorsAction loc_time net_rate_limited "octocat/Hello-World" "t" []
  = (Ok (Failure ("GitHub API rate limit exceeded. Please wait and try again after "
                  ++ loc_time (1700000000 * 1000)%Z ++ ".")),
     ([] ++ [contributors_url "octocat/Hello-World"])%list) /\
  fetchContributorsAction loc_time net_rate_limited_far "octocat/Hello-World" "t" []
  = (Ok (Failure "GitHub API rate limit exceeded. Please wait and try again after Invalid Date."),
     ([] ++ [contributors_url "octocat/Hello-World"])%list).
Proof.
  split.
  - destruct (fetchContributorsAction_rate_limited loc_time net_rate_limited "octocat/Hello-World" "t"
                resp_rate_limited [] ltac:(discriminate) ltac:(discriminate) eq_refl eq_refl eq_refl)
      as [Hrun [Hparse _]].
    rewrite (Hparse "1700000000" 1700000000%Z) in Hrun by first [reflexivity | lia].
    exact Hrun.
  - destruct (fetchContributorsAction_rate_limited loc_time net_rate_limited_far "octocat/Hello-World"
                "t" resp_rate_limited_far [] ltac:(discriminate) ltac:(discriminate)
                eq_refl eq_refl eq_refl)
      as [Hrun [_ [_ [_ [_ Hfar]]]]].
    rewrite (Hfar "9000000000000" 9000000000000%Z) in Hrun by first [reflexivity | lia].
    exact Hrun.
Defined.

Example rate_limited_message :
  fst (fetchContributorsAction loc_time net_rate_limited "octocat/Hello-World" "t" [])
  = Ok (Failure "GitHub API rate limit exceeded. Please wait and try again after time@1700000000000.").
Proof. vm_compute. reflexivity. Qed.

(** ** C8: input checks of the action *)

(** C8, counterexample: the action accepts a repository string that is not
    of the owner/repo form and requests its contributor list. *)
Lemma fetchContributorsAction_unchecked_format :
  repoMatch "not a repo" = None /\
  snd (fetchContributorsAction loc_time (fun _ _ => None) "not a repo" "t" [])
  = [contributors_url "not a repo"].
Proof. split; reflexivity. Qed.

(** C8, as amended. The action rejects an empty repository string or an
    empty token with [{success: false}] and the validation messages, without
    invoking the service and without any request; any other pair of strings
    goes to the service unchecked, whose first request is the contributor
    list of that string. The owner/repo check and the normalisation of the
    URL form are done by the form of the page ([formSchema] and [onSubmit]),
    which calls the action only with the owner/repo text the pattern
    captured and a non-empty token. *)
Theorem fetchContributorsAction_input_checks loc net repo token tr :
  ((repo = "" \/ token = "") ->
   repoInputErrors repo token <> [] /\
   fetchContributorsAction loc net repo token tr
   = (Ok (Failure (join ", " (repoInputErrors repo token))), tr)) /\
  (repo <> "" -> token <> "" ->
   exists res tr', fetchContributorsAction loc net repo token tr
                   = (res, (tr ++ [contributors_url repo] ++ tr')%list)) /\
  (forall name tok, submit repo token = CallsAction name tok ->
   repoMatch repo = Some name /\ name <> "" /\ tok = token /\ token <> "").
Proof.
  split; [|split].
  - intros Hemp.
    assert (Hne : repoInputErrors repo token <> []).
    { unfold repoInputErrors.
      destruct Hemp as [->| ->]; [simpl; discriminate|].
      destruct (String.eqb repo ""); simpl; discriminate. }
    split; [exact Hne|].
    unfold fetchContributorsAction.
    destruct (repoInputErrors repo token); [contradiction|reflexivity].
  - intros Hr Ht. unfold fetchContributorsAction. rewrite (repoInputErrors_nonempty _ _ Hr Ht).
    destruct (getRepoContributors_trace loc net repo token tr) as (res & tr' & Hrun).
    unfold catch, bind. rewrite Hrun.
    destruct res; eexists; eexists; reflexivity.
  - intros name tok. unfold submit, formSchema_valid.
    destruct (String.eqb repo "") eqn:Er; simpl; [discriminate|].
    destruct (repoMatch repo) as [m|] eqn:Em; simpl; [|discriminate].
    destruct (String.eqb token "") eqn:Et; simpl; [discriminate|].
    destruct (String.eqb m "") eqn:Emm; [discriminate|].
    intro H; injection H as <- <-.
    apply String.eqb_neq in Emm, Et. auto.
Qed.

Lemma fetchContributorsAction_input_checks_witness :
  fetchContributorsAction loc_time net_one "" "t" []
  = (Ok (Failure (join ", " (repoInputErrors "" "t"))), []).
Proof.
  exact (proj2 (proj1 (fetchContributorsAction_input_checks loc_time net_one "" "t" [])
                  (or_introl eq_refl))).
Defined.

Lemma strip_prefix_app p r : strip_prefix p (p ++ r) = Some r.
Proof. induction p as [|a p IH]; simpl; [reflexivity|]. now rewrite Ascii.eqb_refl. Qed.

Lemma strip_prefix_some p s r : strip_prefix p s = Some r -> s = p ++ r.
Proof.
  revert s; induction p as [|a p IH]; intros s H; simpl in *; [congruence|].
  destruct s as [|b s]; [discriminate|].
  destruct (Ascii.eqb a b) eqn:E; [|discriminate].
  apply Ascii.eqb_eq in E; subst. f_equal. auto.
Qed.

Lemma no_colon_app a b : no_colon (a ++ b) = no_colon a && no_colon b.
Proof. induction a as [|c a IH]; simpl; [reflexivity|]. rewrite IH. apply andb_assoc. Qed.

Lemma repo_word_no_colon w : all_chars repo_char w = true -> no_colon w = true.
Proof.
  induction w as [|c w IH]; simpl; [reflexivity|].
  intro H. apply andb_prop in H as [Hc Hw]. rewrite IH by exact Hw.
  destruct (Ascii.eqb c ":") eqn:E; [|reflexivity].
  apply Ascii.eqb_eq in E. subst. discriminate.
Qed.

Lemma star_cls_word f w rest k x :
  all_chars f w = true -> stops f rest -> k rest = Some x ->
  star_cls f (w ++ rest) k = Some x.
Proof.
  intros Hw Hst Hk. induction w as [|c w IH]; simpl.
  - destruct rest as [|c r]; simpl in *; [exact Hk|]. now rewrite Hst.
  - simpl in Hw. apply andb_prop in Hw as [Hc Hw]. rewrite Hc, IH by exact Hw. reflexivity.
Qed.

Lemma plus_cls_word f w rest k x :
  w <> "" -> all_chars f w = true -> stops f rest -> k rest = Some x ->
  plus_cls f (w ++ rest) k = Some x.
Proof.
  intros Hne Hw Hst Hk. destruct w as [|c w]; [contradiction|].
  simpl in Hw. apply andb_prop in Hw as [Hc Hw]. simpl. rewrite Hc.
  exact (star_cls_word f w rest k x Hw Hst Hk).
Qed.

Lemma str_length_app a b : String.length (a ++ b) = String.length a + String.length b.
Proof. induction a as [|c a IH]; simpl; [reflexivity|]. now rewrite IH. Qed.

Lemma str_append_assoc a b c : (a ++ b) ++ c = a ++ (b ++ c).
Proof. induction a as [|x a IH]; simpl; [reflexivity|]. now rewrite IH. Qed.

Lemma substring_app a b : substring 0 (String.length (a ++ b) - String.length b) (a ++ b) = a.
Proof.
  rewrite str_length_app, Nat.add_sub.
  induction a as [|c a IH]; simpl; [now destruct b|]. now rewrite IH.
Qed.

Lemma repo_regex_parts : repo_regex = mseq (opt repo_prefix) (mseq repo_group repo_tail).
Proof. reflexivity. Qed.

(** Without a colon the optional URL prefix cannot match. *)
Lemma repo_prefix_none s k : no_colon s = true -> repo_prefix s k = None.
Proof.
  intro Hs. unfold repo_prefix, mseq, opt, lit.
  destruct (strip_prefix "http" s) as [s1|] eqn:E1; [|reflexivity].
  apply strip_prefix_some in E1. subst s.
  destruct (strip_prefix "s" s1) as [s2|] eqn:E2.
  - apply strip_prefix_some in E2. subst s1.
    destruct (strip_prefix "://github.com/" s2) as [s3|] eqn:E3.
    + apply strip_prefix_some in E3. subst s2. discriminate Hs.
    + reflexivity.
  - destruct (strip_prefix "://github.com/" s1) as [s3|] eqn:E3; [|reflexivity].
    apply strip_prefix_some in E3. subst s1. discriminate Hs.
Qed.

Lemma repo_group_word owner name suf k y :
  repo_word owner -> repo_word name -> stops repo_char suf -> k suf = Some y ->
  repo_group (owner ++ "/" ++ name ++ suf) k = Some (owner ++ "/" ++ name).
Proof.
  intros [Ho Ho'] [Hn Hn'] Hst Hk. unfold repo_group, group, mseq.
  apply plus_cls_word; [exact Ho | exact Ho' | reflexivity |].
  unfold lit. rewrite strip_prefix_app.
  apply plus_cls_word; [exact Hn | exact Hn' | exact Hst |].
  rewrite Hk. f_equal.
  replace (owner ++ "/" ++ name ++ suf) with ((owner ++ "/" ++ name) ++ suf)
    by now rewrite !str_append_assoc.
  apply substring_app.
Qed.

Lemma repo_suffix_ok suf : In suf repo_suffixes ->
  stops repo_char suf /\ repo_tail suf at_end = Some "" /\ no_colon suf = true.
Proof. simpl. intros [<-|[<-|[<-|[<-|[]]]]]; repeat split; reflexivity. Qed.

Lemma repoMatch_bare_form owner name suf :
  repo_word owner -> repo_word name -> In suf repo_suffixes ->
  repoMatch (owner ++ "/" ++ name ++ suf) = Some (owner ++ "/" ++ name).
Proof.
  intros Ho Hn Hs. destruct (repo_suffix_ok suf Hs) as (Hst & Ht & Hc).
  unfold repoMatch. rewrite repo_regex_parts. unfold mseq at 1, opt at 1.
  rewrite repo_prefix_none.
  - unfold mseq. apply (repo_group_word owner name suf _ "" Ho Hn Hst Ht).
  - rewrite !no_colon_app, (repo_word_no_colon owner (proj2 Ho)),
      (repo_word_no_colon name (proj2 Hn)), Hc. reflexivity.
Qed.

Lemma repoMatch_url_form pre owner name suf :
  In pre ["https://github.com/"; "http://github.com/"] ->
  repo_word owner -> repo_word name -> In suf repo_suffixes ->
  repoMatch (pre ++ owner ++ "/" ++ name ++ suf) = Some (owner ++ "/" ++ name).
Proof.
  intros Hp Ho Hn Hs. destruct (repo_suffix_ok suf Hs) as (Hst & Ht & _).
  pose proof (repo_group_word owner name suf (fun s => repo_tail s at_end) "" Ho Hn Hst Ht) as Hg.
  unfold repoMatch. rewrite repo_regex_parts. unfold mseq at 1, opt at 1.
  simpl in Hp. destruct Hp as [<-|[<-|[]]].
  - change ("https://github.com/" ++ owner ++ "/" ++ name ++ suf)
      with ("http" ++ ("s" ++ ("://github.com/" ++ (owner ++ "/" ++ name ++ suf)))).
    unfold repo_prefix, mseq, opt, lit. rewrite !strip_prefix_app.
    unfold mseq in Hg. now rewrite Hg.
  - change ("http://github.com/" ++ owner ++ "/" ++ name ++ suf)
      with ("http" ++ ("://github.com/" ++ (owner ++ "/" ++ name ++ suf))).
    unfold repo_prefix, mseq, opt, lit. rewrite !strip_prefix_app.
    change (strip_prefix "s" ("://github.com/" ++ owner ++ "/" ++ name ++ suf)) with (@None string).
    unfold mseq in Hg. now rewrite Hg.
Qed.

Lemma str_append_nil a : a ++ "" = a.
Proof. induction a as [|c a IH]; simpl; [reflexivity|]. now rewrite IH. Qed.

Lemma submit_matched repo token n :
  repoMatch repo = Some n -> repo <> "" -> n <> "" -> token <> "" ->
  submit repo token = CallsAction n token.
Proof.
  intros Hm Hr Hn Ht. unfold submit, formSchema_valid.
  apply String.eqb_neq in Hr, Hn, Ht. rewrite Hm, Hr, Hn, Ht. reflexivity.
Qed.

Lemma owner_repo_nonempty owner rest : repo_word owner -> owner ++ rest <> "".
Proof. intros [Ho _]. destruct owner; [contradiction|discriminate]. Qed.

(** ** C9: normalisation of the repository string *)

(** C9. For an owner and a repository name made of [[a-zA-Z0-9_-]], the
    bare form [owner/name] and the URL forms [https://github.com/owner/name]
    and [http://github.com/owner/name], each optionally followed by [.git],
    [/] or [.git/], are all captured as the same identifier [owner/name]; and
    submitting the form with any of them and a non-empty token calls the
    action with that identifier, the first point where a request can be
    made. *)
Theorem repo_forms_normalise owner name suf token :
  repo_word owner -> repo_word name -> In suf repo_suffixes -> token <> "" ->
  repoMatch (owner ++ "/" ++ name) = Some (owner ++ "/" ++ name) /\
  repoMatch (owner ++ "/" ++ name ++ suf) = Some (owner ++ "/" ++ name) /\
  repoMatch ("https://github.com/" ++ owner ++ "/" ++ name ++ suf) = Some (owner ++ "/" ++ name) /\
  repoMatch ("http://github.com/" ++ owner ++ "/" ++ name ++ suf) = Some (owner ++ "/" ++ name) /\
  submit (owner ++ "/" ++ name) token = CallsAction (owner ++ "/" ++ name) token /\
  submit ("https://github.com/" ++ owner ++ "/" ++ name ++ suf) token
    = CallsAction (owner ++ "/" ++ name) token /\
  submit ("http://github.com/" ++ owner ++ "/" ++ name ++ suf) token
    = CallsAction (owner ++ "/" ++ name) token.
Proof.
  intros Ho Hn Hs Ht.
  assert (Hbare : repoMatch (owner ++ "/" ++ name) = Some (owner ++ "/" ++ name)).
  { pose proof (repoMatch_bare_form owner name "" Ho Hn (or_introl eq_refl)) as H.
    now rewrite str_append_nil in H. }
  assert (Hhttps := repoMatch_url_form "https://github.com/" owner name suf
                      (or_introl eq_refl) Ho Hn Hs).
  assert (Hhttp := repoMatch_url_form "http://github.com/" owner name suf
                     (or_intror (or_introl eq_refl)) Ho Hn Hs).
  pose proof (owner_repo_nonempty owner ("/" ++ name) Ho) as Hne.
  split; [exact Hbare|]. split; [exact (repoMatch_bare_form owner name suf Ho Hn Hs)|].
  split; [exact Hhttps|]. split; [exact Hhttp|].
  split; [exact (submit_matched _ _ _ Hbare Hne Hne Ht)|].
  split; [apply (submit_matched _ _ _ Hhttps); [discriminate | exact Hne | exact Ht]|].
  apply (submit_matched _ _ _ Hhttp); [discriminate | exact Hne | exact Ht].
Qed.

Lemma repo_forms_normalise_witness :
  repoMatch ("octocat" ++ "/" ++ "Hello-World") = Some ("octocat" ++ "/" ++ "Hello-World") /\
  repoMatch ("octocat" ++ "/" ++ "Hello-World" ++ ".git/") = Some ("octocat" ++ "/" ++ "Hello-World") /\
  repoMatch ("https://github.com/" ++ "octocat" ++ "/" ++ "Hello-World" ++ ".git/")
    = Some ("octocat" ++ "/" ++ "Hello-World") /\
  repoMatch ("http://github.com/" ++ "octocat" ++ "/" ++ "Hello-World" ++ ".git/")
    = Some ("octocat" ++ "/" ++ "Hello-World") /\
  submit ("octocat" ++ "/" ++ "Hello-World") "t" = CallsAction ("octocat" ++ "/" ++ "Hello-World") "t" /\
  submit ("https://github.com/" ++ "octocat" ++ "/" ++ "Hello-World" ++ ".git/") "t"
    = CallsAction ("octocat" ++ "/" ++ "Hello-World") "t" /\
  submit ("http://github.com/" ++ "octocat" ++ "/" ++ "Hello-World" ++ ".git/") "t"
    = CallsAction ("octocat" ++ "/" ++ "Hello-World") "t".
Proof.
  apply (repo_forms_normalise "octocat" "Hello-World" ".git/" "t").
  - split; [discriminate | reflexivity].
  - split; [discriminate | reflexivity].
  - simpl. auto.
  - discriminate.
Defined.

Example submit_examples :
  submit "octocat/Hello-World" "t" = CallsAction "octocat/Hello-World" "t" /\
  submit "https://github.com/octocat/Hello-World" "t" = CallsAction "octocat/Hello-World" "t" /\
  submit "https://github.com/octocat/Hello-World.git" "t" = CallsAction "octocat/Hello-World" "t" /\
  submit "octocat/Hello-World" "" = FormRejected /\
  submit "https://gitlab.com/octocat/Hello-World" "t" = FormRejected.
Proof. repeat split; reflexivity. Qed.


(** ** Requests issued, and the failures of the base call *)

Lemma filter_nonnull_length {A} (l : list (option A)) : length (filter_nonnull l) <= length l.
Proof. induction l as [|[x|] l IH]; simpl; lia. Qed.

Lemma detail_urls_count repoName l :
  length (flat_map (detail_urls repoName) l) = 3 * length (filter_nonnull (map login_of l)).
Proof.
  induction l as [|e l IH]; simpl; [reflexivity|].
  rewrite length_app, IH. unfold detail_urls. destruct (login_of e); simpl; lia.
Qed.

Lemma detail_urls_logins repoName l :
  flat_map (detail_urls repoName) l
  = flat_map (fun user => [user_url user; permission_url repoName user; user_repos_url user])
             (filter_nonnull (map login_of l)).
Proof.
  induction l as [|e l IH]; simpl; [reflexivity|].
  unfold detail_urls at 1. destruct (login_of e); simpl; now rewrite IH.
Qed.

(** When the base call answers a 2xx array, the service requests the base URL
    and then, for each entry with a valid login among the first 50, in order,
    that user's profile, collaborator-permission and repositories URLs, and
    nothing else; so 1 + 3k URLs for k such entries, at most 151 in all. *)
Theorem getRepoContributors_request_count loc net repoName githubToken resp data tr :
  net (contributors_url repoName) ("Bearer " ++ githubToken) = Some resp ->
  ok resp = true ->
  body resp = Some (JArr data) ->
  exists out urls,
    getRepoContributors loc net repoName githubToken tr = (Ok out, (tr ++ urls)%list) /\
    urls = contributors_url repoName
           :: flat_map (fun user => [user_url user; permission_url repoName user; user_repos_url user])
                       (filter_nonnull (map login_of (firstn 50 data))) /\
    length urls = 1 + 3 * length (filter_nonnull (map login_of (firstn 50 data))) /\
    length urls <= 151.
Proof.
  intros Hnet Hok Hbody.
  rewrite (getRepoContributors_base_ok loc net repoName githubToken resp data tr Hnet Hok Hbody).
  do 2 eexists. split; [reflexivity|]. split; [now rewrite detail_urls_logins|].
  rewrite length_app, detail_urls_count. change (length [contributors_url repoName]) with 1.
  pose proof (filter_nonnull_length (map login_of (firstn 50 data))) as H1.
  rewrite length_map in H1. pose proof (firstn_le_length 50 data). split; lia.
Qed.

Lemma getRepoContributors_request_count_witness :
  exists out urls,
    getRepoContributors loc_time net_many "octocat/Hello-World" "t" [] = (Ok out, ([] ++ urls)%list) /\
    urls = contributors_url "octocat/Hello-World"
           :: flat_map (fun user => [user_url user; permission_url "octocat/Hello-World" user;
                                     user_repos_url user])
                       (map (fun n => "u" ++ dec_of_nat n) (seq 1 49)) /\
    length urls = 148.
Proof.
  destruct (getRepoContributors_request_count loc_time net_many "octocat/Hello-World" "t"
              (mkResp 200 [] (Some (JArr many_contributors))) many_contributors []
              ltac:(vm_compute; reflexivity) eq_refl eq_refl)
    as (out & urls & Hrun & Hurls & Hlen & _).
  exists out, urls. split; [exact Hrun|]. split.
  - rewrite Hurls. vm_compute. reflexivity.
  - rewrite Hlen. vm_compute. reflexivity.
Defined.

(** The base call fails fast: when it rejects, answers a non-2xx status, or
    answers a body that is not JSON or not an array, the service throws the
    corresponding error after requesting the base URL only. *)
Theorem getRepoContributors_fail_fast loc net repoName githubToken tr :
  let url := contributors_url repoName in
  let auth := "Bearer " ++ githubToken in
  (net url auth = None ->
   getRepoContributors loc net repoName githubToken tr
   = (Throw (ErrorMsg "Network connection failed while trying to reach GitHub API."), (tr ++ [url])%list)) /\
  (forall r, net url auth = Some r -> ok r = false ->
   getRepoContributors loc net repoName githubToken tr
   = (Throw (handleApiError loc r ("fetching contributors for " ++ repoName)), (tr ++ [url])%list)) /\
  (forall r, net url auth = Some r -> ok r = true -> body r = None ->
   getRepoContributors loc net repoName githubToken tr = (Throw SyntaxError, (tr ++ [url])%list)) /\
  (forall r j, net url auth = Some r -> ok r = true -> body r = Some j -> (forall xs, j <> JArr xs) ->
   getRepoContributors loc net repoName githubToken tr
   = (Throw (ErrorMsg "Unexpected data format received from GitHub API when fetching contributors."),
      (tr ++ [url])%list)).
Proof.
  intros url auth.
  unfold getRepoContributors, catch, bind, safeFetch, lift, json_body, throw, ret.
  split; [|split; [|split]].
  - intro Hnet. fold auth url. now rewrite Hnet.
  - intros r Hnet Hok. fold auth url. now rewrite Hnet, Hok.
  - intros r Hnet Hok Hb. fold auth url. now rewrite Hnet, Hok, Hb.
  - intros r j Hnet Hok Hb Hj. fold auth url. rewrite Hnet, Hok, Hb. simpl.
    destruct j; try reflexivity. exfalso. exact (Hj _ eq_refl).
Qed.

Lemma getRepoContributors_fail_fast_witness :
  getRepoContributors loc_time (fun _ _ => ok_json (JObj [])) "octocat/Hello-World" "t" []
  = (Throw (ErrorMsg "Unexpected data format received from GitHub API when fetching contributors."),
     ([] ++ [contributors_url "octocat/Hello-World"])%list).
Proof.
  apply (proj2 (proj2 (proj2 (getRepoContributors_fail_fast loc_time (fun _ _ => ok_json (JObj []))
            "octocat/Hello-World" "t" [])))
           (mkResp 200 [] (Some (JObj []))) (JObj [])); try reflexivity.
  intros xs H; discriminate.
Defined.

(** ** The server action never throws *)

(** Whatever the inputs and the network, the server action resolves: it
    never rejects. *)
Theorem fetchContributorsAction_never_throws loc net repo token tr :
  exists res tr', fetchContributorsAction loc net repo token tr = (Ok res, tr').
Proof.
  unfold fetchContributorsAction.
  destruct (repoInputErrors repo token) as [|err errs]; [|unfold ret; eauto].
  unfold catch, bind, ret.
  destruct (getRepoContributors loc net repo token tr) as [[e|out] tr']; eauto.
Qed.

(** With non-empty inputs, the action resolves to [{success: true, data}]
    with the service's result, or to [{success: false, error}] with the
    message of the error the service threw; it requests what the service
    requests. *)
Theorem fetchContributorsAction_outcome loc net repo token tr :
  repo <> "" -> token <> "" ->
  (forall out tr', getRepoContributors loc net repo token tr = (Ok out, tr') ->
   fetchContributorsAction loc net repo token tr = (Ok (Success out), tr')) /\
  (forall e tr', getRepoContributors loc net repo token tr = (Throw e, tr') ->
   fetchContributorsAction loc net repo token tr = (Ok (Failure (exn_message e)), tr')).
Proof.
  intros Hr Ht. unfold fetchContributorsAction.
  destruct (repoInputErrors repo token) eqn:E.
  - unfold catch, bind, ret. split; intros ? ? H; now rewrite H.
  - exfalso. unfold repoInputErrors in E.
    apply String.eqb_neq in Hr, Ht. now rewrite Hr, Ht in E.
Qed.

Lemma fetchContributorsAction_outcome_witness :
  fetchContributorsAction loc_time net_rate_limited "octocat/Hello-World" "t" []
  = (Ok (Failure (exn_message (handleApiError loc_time resp_rate_limited
                                 "fetching contributors for octocat/Hello-World"))),
     [contributors_url "octocat/Hello-World"]).
Proof.
  apply (proj2 (fetchContributorsAction_outcome loc_time net_rate_limited "octocat/Hello-World" "t" []
                  ltac:(discriminate) ltac:(discriminate))).
  vm_compute. reflexivity.
Defined.

(** ** [Object.keys] and the permissions object *)

Lemma existsb_eqb_In k seen : existsb (String.eqb k) seen = true <-> In k seen.
Proof.
  rewrite existsb_exists. split.
  - intros (x & Hx & E). apply String.eqb_eq in E. now subst.
  - intro H. exists k. split; [exact H | apply String.eqb_refl].
Qed.

Lemma dedup_keys_spec fs : forall seen,
  (forall k, In k (dedup_keys fs seen) <-> In k (map fst fs) /\ ~ In k seen) /\
  NoDup (dedup_keys fs seen).
Proof.
  induction fs as [|[k v] fs IH]; intro seen; simpl.
  - split; [tauto | constructor].
  - destruct (existsb (String.eqb k) seen) eqn:E.
    + apply existsb_eqb_In in E. destruct (IH seen) as [H1 H2]. split; [|exact H2].
      intro k'. rewrite H1. split; [tauto|].
      intros [[<-|H] Hn]; [contradiction | tauto].
    + assert (Hk : ~ In k seen) by (rewrite <- existsb_eqb_In; congruence).
      destruct (IH (k :: seen)) as [H1 H2]. split.
      * intro k'. simpl. rewrite H1. simpl.
        destruct (string_dec k k') as [<-|Hne]; intuition.
      * constructor; [|exact H2]. rewrite H1. simpl. tauto.
Qed.

Lemma insert_index_perm x l : Permutation (map snd (insert_index x l)) (snd x :: map snd l).
Proof.
  induction l as [|y l IH]; simpl; [reflexivity|].
  destruct (Z.leb (fst x) (fst y)); simpl; [reflexivity|].
  eapply perm_trans; [apply perm_skip, IH | apply perm_swap].
Qed.

Lemma index_keys_perm ks :
  Permutation
    (map snd (fold_right (fun k acc =>
                match array_index k with
                | Some v => insert_index (v, k) acc
                | None => acc
                end) [] ks))
    (filter (fun k => match array_index k with Some _ => true | None => false end) ks).
Proof.
  induction ks as [|k ks IH]; simpl; [reflexivity|].
  destruct (array_index k); [|exact IH].
  eapply perm_trans; [apply insert_index_perm|]. simpl. apply perm_skip, IH.
Qed.

Lemma filter_split_perm (f g : string -> bool) ks :
  (forall k, g k = negb (f k)) -> Permutation (filter f ks ++ filter g ks) ks.
Proof.
  intro Hg. induction ks as [|k ks IH]; simpl; [reflexivity|].
  rewrite Hg. destruct (f k); simpl; [apply perm_skip, IH|].
  eapply perm_trans; [symmetry; apply Permutation_middle | apply perm_skip, IH].
Qed.

Lemma object_keys_perm fs : Permutation (object_keys fs) (dedup_keys fs []).
Proof.
  unfold object_keys.
  eapply perm_trans; [apply Permutation_app_tail, index_keys_perm|].
  apply filter_split_perm. intro k. now destruct (array_index k).
Qed.

Lemma obj_get_In fs k : forall v, obj_get fs k = Some v -> In k (map fst fs).
Proof.
  induction fs as [|[k' v'] fs IH]; simpl; intro v; [discriminate|].
  destruct (obj_get fs k) as [j|] eqn:E; intro H; [right; exact (IH j eq_refl)|].
  destruct (String.eqb k k') eqn:E2; [|discriminate].
  left. symmetry. now apply String.eqb_eq.
Qed.

Lemma true_keys_obj fs :
  (forall k, In k (true_keys (JObj fs)) <-> obj_get fs k = Some (JBool true)) /\
  NoDup (true_keys (JObj fs)).
Proof.
  simpl. destruct (dedup_keys_spec fs []) as [H1 H2].
  pose proof (object_keys_perm fs) as P. split.
  - intro k. rewrite filter_In. split.
    + intros [_ H]. destruct (obj_get fs k) as [[| [|] | | | | |]|]; try discriminate; reflexivity.
    + intro H. split; [|now rewrite H].
      apply (Permutation_in _ (Permutation_sym P)). apply H1.
      split; [exact (obj_get_In fs k _ H) | simpl; tauto].
  - apply NoDup_filter. exact (Permutation_NoDup (Permutation_sym P) H2).
Qed.

Lemma res_bind_ok {A B} (m : Res A) (f : A -> B) y :
  res_bind m (fun x => Ok (f x)) = Ok y -> exists x, m = Ok x /\ y = f x.
Proof. destruct m as [e|x]; simpl; [discriminate|]. intro H; injection H as <-. eauto. Qed.

(** When the permission response is a 2xx object with a [permissions]
    object, the record's permissions are exactly the keys of that object
    whose value is [true], each listed once, whatever [role_name] and
    [permission] say. *)
Theorem processPermission_permissions_object r fs ps ri :
  ok r = true -> body r = Some (JObj fs) -> obj_get fs "permissions" = Some (JObj ps) ->
  processPermission (Fulfilled r) = Ok ri ->
  (forall k, In k (permissions ri) <-> obj_get ps k = Some (JBool true)) /\
  NoDup (permissions ri).
Proof.
  intros Hok Hb Hp Hrun. unfold processPermission, json_body in Hrun.
  rewrite Hok, Hb in Hrun. cbn [res_bind] in Hrun; rewrite ?get_prop_obj in Hrun by reflexivity; cbn [res_bind] in Hrun. rewrite Hp in Hrun.
  cbn [truthy truthy_json is_object andb res_bind] in Hrun.
  apply res_bind_ok in Hrun as (role & _ & ->). exact (true_keys_obj ps).
Qed.

Lemma processPermission_permissions_object_witness :
  (forall k, In k (permissions (mkRole "Admin" ["pull"; "push"]))
             <-> obj_get [("pull", JBool true); ("push", JBool true); ("admin", JBool false)] k
                 = Some (JBool true)) /\
  NoDup (permissions (mkRole "Admin" ["pull"; "push"])).
Proof.
  apply (processPermission_permissions_object
           (mkResp 200 [] (Some (JObj [("permission", JStr "admin");
              ("permissions", JObj [("pull", JBool true); ("push", JBool true); ("admin", JBool false)])])))
           [("permission", JStr "admin");
            ("permissions", JObj [("pull", JBool true); ("push", JBool true); ("admin", JBool false)])]
           [("pull", JBool true); ("push", JBool true); ("admin", JBool false)]);
    vm_compute; reflexivity.
Defined.

(** When the permission response is a 2xx object with no truthy [role_name]
    and no [permissions] object, a non-empty [permission] level string maps
    to the role and permissions: admin to Admin and [admin, push, pull],
    write to Maintainer and [push, pull], read to Read and [pull], and any
    other level to Collaborator with no permissions. *)
Theorem processPermission_level r fs p :
  ok r = true -> body r = Some (JObj fs) ->
  truthy (obj_get fs "role_name") = false ->
  (truthy (obj_get fs "permissions") && is_object (obj_get fs "permissions")) = false ->
  obj_get fs "permission" = Some (JStr p) -> p <> "" ->
  processPermission (Fulfilled r)
  = Ok (if String.eqb p "admin" then mkRole "Admin" ["admin"; "push"; "pull"]
        else if String.eqb p "write" then mkRole "Maintainer" ["push"; "pull"]
        else if String.eqb p "read" then mkRole "Read" ["pull"]
        else mkRole "Collaborator" []).
Proof.
  intros Hok Hb Hrn Hperms Hp Hne. unfold processPermission, json_body.
  rewrite Hok, Hb. cbn [res_bind]; rewrite ?get_prop_obj by reflexivity; cbn [res_bind]. rewrite Hrn, Hperms, Hp.
  apply String.eqb_neq in Hne.
  cbn [truthy truthy_json res_bind]. rewrite Hne. cbn [negb].
  unfold permission_level_role, permission_level_permissions, strict_eq_str.
  destruct (String.eqb p "admin"); [reflexivity|].
  destruct (String.eqb p "write"); [reflexivity|].
  destruct (String.eqb p "read"); reflexivity.
Qed.

Lemma processPermission_level_witness :
  processPermission (Fulfilled (resp_permission "write")) = Ok (mkRole "Maintainer" ["push"; "pull"]).
Proof.
  exact (processPermission_level (resp_permission "write") [("permission", JStr "write")] "write"
           eq_refl eq_refl eq_refl eq_refl eq_refl ltac:(discriminate)).
Defined.

Lemma upper_char_ascii c : nat_of_ascii c < 128 -> upper_char c = String (upper_ascii c) EmptyString.
Proof.
  destruct c as [[] [] [] [] [] [] [] []]; intro H; vm_compute in H;
    first [reflexivity | exfalso; lia].
Qed.

(** A non-empty [role_name] string whose first character is ASCII takes
    precedence over the permission level: the role is that string with its
    first character upper-cased (a-z to A-Z, any other character kept), and
    the lookup does not throw. *)
Theorem processPermission_role_name r fs c rest :
  ok r = true -> body r = Some (JObj fs) ->
  obj_get fs "role_name" = Some (JStr (String c rest)) -> nat_of_ascii c < 128 ->
  exists perms, processPermission (Fulfilled r) = Ok (mkRole (String (upper_ascii c) rest) perms).
Proof.
  intros Hok Hb Hrn Hc. unfold processPermission, json_body.
  rewrite Hok, Hb. cbn [res_bind]. rewrite ?get_prop_obj by reflexivity. cbn [res_bind].
  rewrite Hrn.
  cbn [truthy truthy_json String.eqb negb res_bind capitalize toUpperCase].
  rewrite (upper_char_ascii c Hc). cbn [append].
  destruct (truthy (obj_get fs "permissions") && is_object (obj_get fs "permissions")); simpl; eauto.
Qed.

Lemma processPermission_role_name_witness :
  exists perms, processPermission (Fulfilled (mkResp 200 [] (Some (JObj [("role_name", JStr "maintain");
                                                                      ("permission", JStr "write")]))))
                = Ok (mkRole "Maintain" perms).
Proof.
  exact (processPermission_role_name
           (mkResp 200 [] (Some (JObj [("role_name", JStr "maintain"); ("permission", JStr "write")])))
           [("role_name", JStr "maintain"); ("permission", JStr "write")]
           "m" "aintain" eq_refl eq_refl eq_refl ltac:(vm_compute; lia)).
Defined.

Example capitalize_latin1 :
  capitalize (String (ascii_of_nat 233) "diteur") = String (ascii_of_nat 201) "diteur" /\
  capitalize (String (ascii_of_nat 223) "x") = "SSx".
Proof. split; reflexivity. Qed.

(** ** When a contributor is dropped *)

Lemma processContributor_throws repoName e user u p rr :
  (exists err, processUser u = Throw err) \/ (exists err, processPermission p = Throw err) \/
  (exists err, processRepos repoName rr = Throw err) ->
  exists err, processContributor repoName e user u p rr = Throw err.
Proof.
  unfold processContributor.
  destruct (processUser u) as [e1|]; simpl; [eauto|].
  destruct (processPermission p) as [e2|]; simpl; [eauto|].
  destruct (processRepos repoName rr) as [e3|]; simpl; [eauto|].
  intros [[? H]|[[? H]|[? H]]]; discriminate.
Qed.

Lemma contributorInfo_none net repoName auth e user tr :
  login_of e = Some user ->
  (exists err, processContributor repoName e user
                 (settled_of (net (user_url user) auth))
                 (settled_of (net (permission_url repoName user) auth))
                 (settled_of (net (user_repos_url user) auth)) = Throw err) ->
  contributorInfo net repoName auth e tr = (Ok None, (tr ++ detail_urls repoName e)%list).
Proof.
  intros Hl [err Herr]. rewrite contributorInfo_run. unfold contributor_result.
  now rewrite Hl, Herr.
Qed.

(** A contributor whose permission response is a 2xx object with a truthy
    [role_name] that is not a string is dropped: its detail fetch resolves to
    [null] (the [charAt] call throws), after its three requests. *)
Theorem contributorInfo_drops_bad_role_name net repoName auth e user r fs v tr :
  login_of e = Some user ->
  net (permission_url repoName user) auth = Some r -> ok r = true -> body r = Some (JObj fs) ->
  obj_get fs "role_name" = Some v -> truthy_json v = true -> (forall s, v <> JStr s) ->
  contributorInfo net repoName auth e tr = (Ok None, (tr ++ detail_urls repoName e)%list).
Proof.
  intros Hl Hnet Hok Hb Hrn Ht Hns. apply (contributorInfo_none _ _ _ _ user); [exact Hl|].
  apply processContributor_throws. right; left.
  rewrite Hnet. simpl. unfold json_body. rewrite Hok, Hb. cbn [res_bind]; rewrite ?get_prop_obj by reflexivity; cbn [res_bind].
  rewrite Hrn. cbn [truthy]. rewrite Ht.
  destruct v; try (exists TypeError; reflexivity). exfalso; exact (Hns _ eq_refl).
Qed.

Lemma contributorInfo_drops_bad_role_name_witness :
  contributorInfo (fun u _ => if String.eqb u (permission_url "o/r" "a")
                              then Some (mkResp 200 [] (Some (JObj [("role_name", JNum 3)])))
                              else None)
    "o/r" "Bearer t" (JObj [("login", JStr "a")]) []
  = (Ok None, ([] ++ detail_urls "o/r" (JObj [("login", JStr "a")]))%list).
Proof.
  apply (contributorInfo_drops_bad_role_name _ "o/r" "Bearer t" (JObj [("login", JStr "a")]) "a"
           (mkResp 200 [] (Some (JObj [("role_name", JNum 3)]))) [("role_name", JNum 3)] (JNum 3));
    try reflexivity.
  intros s H; discriminate.
Defined.

(** A contributor one of whose three detail requests answers 2xx with a body
    that is not valid JSON is dropped: its detail fetch resolves to [null]. *)
Theorem contributorInfo_drops_malformed_json net repoName auth e user url r tr :
  login_of e = Some user ->
  In url (detail_urls repoName e) -> net url auth = Some r -> ok r = true -> body r = None ->
  contributorInfo net repoName auth e tr = (Ok None, (tr ++ detail_urls repoName e)%list).
Proof.
  intros Hl Hin Hnet Hok Hb. apply (contributorInfo_none _ _ _ _ user); [exact Hl|].
  apply processContributor_throws.
  unfold detail_urls in Hin. rewrite Hl in Hin. simpl in Hin.
  destruct Hin as [<-|[<-|[<-|[]]]]; rewrite Hnet; simpl.
  - left. unfold json_body. rewrite Hok, Hb. simpl. eauto.
  - right; left. unfold json_body. rewrite Hok, Hb. simpl. eauto.
  - right; right. unfold json_body. rewrite Hok, Hb. simpl. eauto.
Qed.

Lemma contributorInfo_drops_malformed_json_witness :
  contributorInfo (fun u _ => if String.eqb u (user_repos_url "a") then Some (mkResp 200 [] None) else None)
    "o/r" "Bearer t" (JObj [("login", JStr "a")]) []
  = (Ok None, ([] ++ detail_urls "o/r" (JObj [("login", JStr "a")]))%list).
Proof.
  exact (contributorInfo_drops_malformed_json _ "o/r" "Bearer t" (JObj [("login", JStr "a")]) "a"
           (user_repos_url "a") (mkResp 200 [] None) [] eq_refl
           (or_intror (or_intror (or_introl eq_refl))) eq_refl eq_refl eq_refl).
Defined.

Lemma res_filterM_throws {A} (p : A -> Res bool) l x err :
  In x l -> p x = Throw err -> exists err', res_filterM p l = Throw err'.
Proof.
  intros Hin Hp. induction l as [|a l IH]; [destruct Hin|].
  simpl. destruct Hin as [->|Hin]; [rewrite Hp; simpl; eauto|].
  destruct (p a) as [e|b]; simpl; [eauto|].
  destruct (IH Hin) as [err' ->]. simpl. eauto.
Qed.

(** A contributor whose repositories response is a 2xx array with a [null]
    entry is dropped: reading [full_name] of [null] throws, and the detail
    fetch resolves to [null]. *)
Theorem contributorInfo_drops_null_repo net repoName auth e user r l tr :
  login_of e = Some user ->
  net (user_repos_url user) auth = Some r -> ok r = true -> body r = Some (JArr l) -> In JNull l ->
  contributorInfo net repoName auth e tr = (Ok None, (tr ++ detail_urls repoName e)%list).
Proof.
  intros Hl Hnet Hok Hb Hin. apply (contributorInfo_none _ _ _ _ user); [exact Hl|].
  apply processContributor_throws. right; right.
  rewrite Hnet. simpl. unfold json_body. rewrite Hok, Hb. cbn [res_bind].
  match goal with
  | |- context [res_filterM ?p l] =>
      destruct (res_filterM_throws p l JNull TypeError Hin eq_refl) as [err' E]; rewrite E
  end.
  simpl. eauto.
Qed.

Lemma contributorInfo_drops_null_repo_witness :
  contributorInfo (fun u _ => if String.eqb u (user_repos_url "a")
                              then Some (mkResp 200 [] (Some (JArr [JObj [("full_name", JStr "a/x")]; JNull])))
                              else None)
    "o/r" "Bearer t" (JObj [("login", JStr "a")]) []
  = (Ok None, ([] ++ detail_urls "o/r" (JObj [("login", JStr "a")]))%list).
Proof.
  exact (contributorInfo_drops_null_repo _ "o/r" "Bearer t" (JObj [("login", JStr "a")]) "a"
           (mkResp 200 [] (Some (JArr [JObj [("full_name", JStr "a/x")]; JNull])))
           [JObj [("full_name", JStr "a/x")]; JNull] [] eq_refl eq_refl eq_refl eq_refl
           (or_intror (or_introl eq_refl))).
Defined.

(** ** External repositories and public emails *)

(** An object entry of the repositories list never makes the mapping throw;
    its name and URL are its [full_name] and [html_url], and its role is
    Admin when [permissions] is an object whose [admin] is truthy, otherwise
    Write when that object's [push] is truthy, Write when [permissions] is an
    array (its [push] is the inherited [Array.prototype.push], a truthy
    function), and Read otherwise (also when [permissions] is missing or a
    primitive). *)
Theorem repo_entry_object fs :
  exists g, repo_entry (JObj fs) = Ok g /\
    name g = obj_get fs "full_name" /\ url g = obj_get fs "html_url" /\
    repo_role g = match obj_get fs "permissions" with
                  | Some (JObj ps) =>
                      if truthy (obj_get ps "admin") then "Admin"
                      else if truthy (obj_get ps "push") then "Write" else "Read"
                  | Some (JArr _) => "Write"
                  | _ => "Read"
                  end.
Proof.
  unfold repo_entry. rewrite !get_prop_obj by reflexivity. cbn [res_bind].
  destruct (obj_get fs "permissions") as [p|]; [|eexists; split; [reflexivity|]; simpl; auto].
  destruct p as [| [|] | n | s | xs | ps |]; simpl;
    try (eexists; split; [reflexivity|]; simpl; auto; fail).
  - destruct (Z.eqb n 0); simpl; eexists; split; try reflexivity; simpl; auto.
  - destruct (String.eqb s ""); simpl; eexists; split; try reflexivity; simpl; auto.
  - destruct (truthy (obj_get ps "admin")); [|destruct (truthy (obj_get ps "push"))];
      simpl; eexists; split; try reflexivity; simpl; auto.
Qed.

Example repo_entry_array_permissions :
  exists g, repo_entry (JObj [("full_name", JStr "o/x"); ("permissions", JArr [])]) = Ok g /\
            repo_role g = "Write".
Proof. eexists. split; reflexivity. Qed.

Lemma processUser_emails o ems :
  processUser (settled_of o) = Ok ems ->
  ems = [] \/
  exists resp fs em, o = Some resp /\ ok resp = true /\ body resp = Some (JObj fs) /\
    obj_get fs "email" = Some em /\ truthy_json em = true /\ ems = [em].
Proof.
  destruct o as [resp|]; simpl; [|intro H; injection H as <-; auto].
  destruct (ok resp) eqn:Hok; [|intro H; injection H as <-; auto].
  unfold json_body. destruct (body resp) as [j|] eqn:Hb; simpl; [|discriminate].
  destruct j as [| | | | |fs|]; simpl; try discriminate; try (intro H; injection H as <-; left; reflexivity).
  destruct (obj_get fs "email") as [em|] eqn:He; [|intro H; injection H as <-; left; reflexivity].
  destruct (truthy_json em) eqn:Ht; intro H; injection H as <-; [right|left; reflexivity].
  exists resp, fs, em. auto 7.
Qed.

Lemma contributor_result_emails net repoName auth e r :
  contributor_result net repoName auth e = Some r ->
  emails r = [] \/
  exists resp fs em, net (user_url (username r)) auth = Some resp /\ ok resp = true /\
    body resp = Some (JObj fs) /\ obj_get fs "email" = Some em /\ truthy_json em = true /\
    emails r = [em].
Proof.
  unfold contributor_result. destruct (login_of e) as [user|]; [|discriminate].
  unfold processContributor.
  destruct (processUser (settled_of (net (user_url user) auth))) as [|ems] eqn:Hu; simpl; [discriminate|].
  destruct (processPermission _); simpl; [discriminate|].
  destruct (processRepos _ _); simpl; [discriminate|].
  destruct (get_prop e "contributions"); simpl; [discriminate|].
  intro H; injection H as <-. simpl. exact (processUser_emails _ _ Hu).
Qed.

(** Every record the service returns lists at most one email: none, or the
    truthy [email] field of the contributor's 2xx profile object. *)
Theorem getRepoContributors_emails loc net repoName githubToken tr out tr' :
  getRepoContributors loc net repoName githubToken tr = (Ok out, tr') ->
  Forall (fun r =>
    emails r = [] \/
    exists resp fs em, net (user_url (username r)) ("Bearer " ++ githubToken) = Some resp /\
      ok resp = true /\ body resp = Some (JObj fs) /\ obj_get fs "email" = Some em /\
      truthy_json em = true /\ emails r = [em]) out.
Proof.
  intro H. apply getRepoContributors_inv in H as (resp & data & _ & _ & _ & ->).
  apply Forall_forall. intros r Hin.
  apply In_filter_nonnull in Hin as (e & _ & He).
  exact (contributor_result_emails _ _ _ _ _ He).
Qed.

Lemma getRepoContributors_emails_witness :
  match getRepoContributors loc_time net_profile "octocat/Hello-World" "t" [] with
  | (Ok out, _) =>
      Forall (fun r =>
        emails r = [] \/
        exists resp fs em, net_profile (user_url (username r)) ("Bearer " ++ "t") = Some resp /\
          ok resp = true /\ body resp = Some (JObj fs) /\ obj_get fs "email" = Some em /\
          truthy_json em = true /\ emails r = [em]) out
  | _ => False
  end.
Proof.
  destruct (getRepoContributors loc_time net_profile "octocat/Hello-World" "t" []) as [[e|out] tr'] eqn:E.
  - vm_compute in E. discriminate.
  - exact (getRepoContributors_emails loc_time net_profile "octocat/Hello-World" "t" [] out tr' E).
Defined.

(** ** The repository pattern accepts only the forms it documents *)

Lemma matches_as_weaken m (P Q : string -> Prop) :
  (forall w, P w -> Q w) -> matches_as m P -> matches_as m Q.
Proof.
  intros HPQ Hm s k x H. destruct (Hm s k x H) as (w & r & Hs & Hw & Hk).
  exists w, r. split; [exact Hs | split; [apply HPQ, Hw | exact Hk]].
Qed.

Lemma lit_as p : matches_as (lit p) (fun w => w = p).
Proof.
  intros s k x. unfold lit. destruct (strip_prefix p s) as [r|] eqn:E; [|discriminate].
  intro H. apply strip_prefix_some in E. eauto.
Qed.

Lemma star_cls_as f s k x :
  star_cls f s k = Some x -> exists w r, s = (w ++ r) /\ all_chars f w = true /\ k r = Some x.
Proof.
  revert k x; induction s as [|c s IH]; intros k x; simpl.
  - intro H. exists "", "". auto.
  - destruct (f c) eqn:Hc.
    + destruct (star_cls f s k) as [y|] eqn:E.
      * intro H; injection H as <-. destruct (IH k y E) as (w & r & -> & Hw & Hk).
        exists (String c w), r. simpl. rewrite Hc, Hw. auto.
      * intro H. exists "", (String c s). auto.
    + intro H. exists "", (String c s). auto.
Qed.

Lemma plus_cls_as f : matches_as (plus_cls f) (fun w => w <> "" /\ all_chars f w = true).
Proof.
  intros s k x. unfold plus_cls. destruct s as [|c s]; [discriminate|].
  destruct (f c) eqn:Hc; [|discriminate].
  intro H. destruct (star_cls_as f s k x H) as (w & r & -> & Hw & Hk).
  exists (String c w), r. simpl. rewrite Hc, Hw. repeat split; auto; discriminate.
Qed.

Lemma opt_as m P : matches_as m P -> matches_as (opt m) (fun w => P w \/ w = "").
Proof.
  intros Hm s k x. unfold opt. destruct (m s k) as [y|] eqn:E.
  - intro H; injection H as <-. destruct (Hm s k y E) as (w & r & Hs & Hw & Hk).
    exists w, r. auto.
  - intro H. exists "", s. auto.
Qed.

Lemma mseq_as m1 m2 P1 P2 :
  matches_as m1 P1 -> matches_as m2 P2 ->
  matches_as (mseq m1 m2) (fun w => exists w1 w2, w = (w1 ++ w2) /\ P1 w1 /\ P2 w2).
Proof.
  intros H1 H2 s k x H. unfold mseq in H.
  destruct (H1 _ _ _ H) as (w1 & r1 & -> & Hw1 & Hk1).
  destruct (H2 _ _ _ Hk1) as (w2 & r2 & -> & Hw2 & Hk2).
  exists (w1 ++ w2), r2. rewrite str_append_assoc.
  split; [reflexivity | split; [exists w1, w2; auto | exact Hk2]].
Qed.

Lemma repo_prefix_as : matches_as (opt repo_prefix) (fun w => In w url_prefixes).
Proof.
  eapply matches_as_weaken; [|apply opt_as, mseq_as; [apply lit_as | apply mseq_as; [apply opt_as, lit_as | apply lit_as]]].
  intros w [(w1 & w2 & -> & -> & (a & b & -> & Ha & ->))| ->]; simpl; [|auto].
  destruct Ha as [->| ->]; simpl; auto.
Qed.

Lemma repo_tail_as : matches_as repo_tail (fun w => In w repo_suffixes).
Proof.
  eapply matches_as_weaken; [|apply mseq_as; apply opt_as, lit_as].
  intros w (w1 & w2 & -> & [->| ->] & [->| ->]); simpl; auto.
Qed.

Lemma repo_words_as :
  matches_as (mseq (plus_cls repo_char) (mseq (lit "/") (plus_cls repo_char)))
    (fun w => exists owner name, w = owner ++ "/" ++ name /\ repo_word owner /\ repo_word name).
Proof.
  eapply matches_as_weaken; [|apply mseq_as; [apply plus_cls_as | apply mseq_as; [apply lit_as | apply plus_cls_as]]].
  intros w (o & w2 & -> & Ho & (sl & n & -> & -> & Hn)). exists o, n. unfold repo_word. auto.
Qed.

(** What [repoMatch] captures: an [owner/name] pair of non-empty
    [[a-zA-Z0-9_-]] words, and the input is that pair behind an accepted
    prefix and before an accepted suffix. *)
Lemma repoMatch_shape s n :
  repoMatch s = Some n ->
  exists pre owner name suf,
    In pre url_prefixes /\ repo_word owner /\ repo_word name /\ In suf repo_suffixes /\
    n = owner ++ "/" ++ name /\ s = pre ++ n ++ suf.
Proof.
  unfold repoMatch. rewrite repo_regex_parts. intro H. unfold mseq at 1 in H.
  destruct (repo_prefix_as _ _ _ H) as (pre & r1 & -> & Hpre & H1).
  unfold mseq, repo_group, group in H1. fold (mseq (plus_cls repo_char) (mseq (lit "/") (plus_cls repo_char))) in H1.
  destruct (repo_words_as _ _ _ H1) as (w & r2 & -> & (owner & name & -> & Ho & Hn) & H2).
  destruct (repo_tail r2 at_end) as [y|] eqn:Et; [|discriminate].
  injection H2 as <-. rewrite substring_app.
  destruct (repo_tail_as _ _ _ Et) as (suf & r3 & -> & Hsuf & Hend).
  destruct r3; [|discriminate].
  exists pre, owner, name, suf. rewrite str_append_nil.
  refine (conj Hpre (conj Ho (conj Hn (conj Hsuf (conj _ _))))); reflexivity.
Qed.

Lemma repoMatch_nonempty s n : repoMatch s = Some n -> n <> "".
Proof.
  intro H. apply repoMatch_shape in H as (pre & owner & name & suf & _ & _ & _ & _ & -> & _).
  destruct owner; discriminate.
Qed.

(** Anything the page's pattern accepts is [owner/name] with both parts
    non-empty runs of [[a-zA-Z0-9_-]] (so exactly one slash), written bare or
    behind [http://github.com/] or [https://github.com/], and followed by
    nothing, [.git], [/] or [.git/]. *)
Theorem repoMatch_sound s n :
  repoMatch s = Some n ->
  exists pre owner name suf,
    In pre url_prefixes /\ repo_word owner /\ repo_word name /\ In suf repo_suffixes /\
    n = owner ++ "/" ++ name /\ s = pre ++ n ++ suf.
Proof. exact (repoMatch_shape s n). Qed.

Lemma repoMatch_sound_witness :
  exists pre owner name suf,
    In pre url_prefixes /\ repo_word owner /\ repo_word name /\ In suf repo_suffixes /\
    "octocat/Hello-World" = owner ++ "/" ++ name /\
    "https://github.com/octocat/Hello-World.git" = pre ++ "octocat/Hello-World" ++ suf.
Proof. exact (repoMatch_sound "https://github.com/octocat/Hello-World.git" "octocat/Hello-World" eq_refl). Defined.

(** Once the form's schema accepts the input, [onSubmit] never takes its
    invalid-format branch: that branch is unreachable. *)
Theorem submit_never_invalid_format repo token : submit repo token <> InvalidRepositoryFormat.
Proof.
  unfold submit. destruct (formSchema_valid repo token) eqn:F; [|discriminate].
  destruct (repoMatch repo) as [n|] eqn:E.
  - destruct (String.eqb n "") eqn:En; [|discriminate].
    apply String.eqb_eq in En. exfalso. exact (repoMatch_nonempty _ _ E En).
  - unfold formSchema_valid in F. rewrite E in F.
    destruct (negb (String.eqb repo "")); discriminate.
Qed.

(** ** The page after a submission *)

(** After [onSubmit] completes, the page shows neither the spinner nor the
    initial placeholder, and exactly one of the contributor list, the
    no-contributors notice and the error panel. *)
Theorem onSubmit_one_panel act repo token s :
  let s' := Page.onSubmit act repo token s in
  Page.shows_loading s' = false /\ Page.shows_initial true s' = false /\ Page.result_panels s' = 1.
Proof.
  unfold Page.onSubmit. cbv zeta.
  destruct (repoMatch repo) as [n|]; [|repeat split].
  destruct (String.eqb n ""); [repeat split|].
  unfold Page.shows_loading, Page.shows_initial, Page.result_panels,
    Page.shows_results, Page.shows_no_results, Page.shows_error, Page.truthy_opt_str.
  destruct (act n token) as [e|[data|err]]; simpl.
  - destruct (String.eqb (exn_message e) ""); repeat split.
  - destruct data; repeat split.
  - destruct (String.eqb err "") eqn:E; simpl; [repeat split|]. rewrite E. repeat split.
Qed.

(** On a successful fetch the page lists the returned contributors in order,
    selects the first one (none when the list is empty), clears the error and
    remembers the normalised repository name. *)
Theorem onSubmit_success act repo token s name data :
  repoMatch repo = Some name -> act name token = Ok (Success data) ->
  let s' := Page.onSubmit act repo token s in
  Page.contributors s' = data /\ Page.selectedContributor s' = hd_error data /\
  Page.errorOccurred s' = None /\ Page.repoName s' = Some name /\ Page.isLoading s' = false.
Proof.
  intros Hm Ha. cbv zeta. unfold Page.onSubmit. rewrite Hm.
  pose proof (repoMatch_nonempty _ _ Hm) as Hn. apply String.eqb_neq in Hn. rewrite Hn, Ha.
  destruct data; repeat split.
Qed.

Lemma onSubmit_success_witness :
  let s' := Page.onSubmit (fun _ _ => Ok (Success sample_records))
              "https://github.com/octocat/Hello-World" "t" Page.initial in
  Page.contributors s' = sample_records /\
  Page.selectedContributor s' = Some (mkContributorInfo "a" (mkRole "Admin" ["admin"; "push"; "pull"])
                                        (mkActivities 0 (JNum 10) 0) [] []) /\
  Page.errorOccurred s' = None /\ Page.repoName s' = Some "octocat/Hello-World" /\ Page.isLoading s' = false.
Proof.
  exact (onSubmit_success (fun _ _ => Ok (Success sample_records)) "https://github.com/octocat/Hello-World"
           "t" Page.initial "octocat/Hello-World" sample_records eq_refl eq_refl).
Defined.

(** When the action answers [{success: false, error}], the page shows the
    error panel with [error], or a generic message when [error] is empty, in
    a destructive toast and the error state, and clears the list. *)
Theorem onSubmit_failure act repo token s name err :
  repoMatch repo = Some name -> act name token = Ok (Failure err) ->
  let msg := if String.eqb err "" then "Failed to fetch contributor data. Please check details and try again."
             else err in
  let s' := Page.onSubmit act repo token s in
  Page.contributors s' = [] /\ Page.selectedContributor s' = None /\
  Page.errorOccurred s' = Some msg /\ Page.shows_error s' = true /\ Page.repoName s' = Some name /\
  Page.toasts s' = (Page.toasts s ++ [Page.mkToast "destructive" "Error Fetching Data" msg])%list.
Proof.
  intros Hm Ha msg. unfold Page.onSubmit. rewrite Hm.
  pose proof (repoMatch_nonempty _ _ Hm) as Hn. apply String.eqb_neq in Hn. rewrite Hn, Ha.
  cbv zeta. fold msg. unfold Page.shows_error, Page.truthy_opt_str. simpl.
  repeat split. unfold msg. destruct (String.eqb err "") eqn:E; [reflexivity|]. now rewrite E.
Qed.

Lemma onSubmit_failure_witness :
  let s' := Page.onSubmit (fun _ _ => Ok (Failure "")) "octocat/Hello-World" "t" Page.initial in
  Page.contributors s' = [] /\ Page.selectedContributor s' = None /\
  Page.errorOccurred s' = Some "Failed to fetch contributor data. Please check details and try again." /\
  Page.shows_error s' = true /\ Page.repoName s' = Some "octocat/Hello-World" /\
  Page.toasts s' = ([] ++ [Page.mkToast "destructive" "Error Fetching Data"
                             "Failed to fetch contributor data. Please check details and try again."])%list.
Proof.
  exact (onSubmit_failure (fun _ _ => Ok (Failure "")) "octocat/Hello-World" "t" Page.initial
           "octocat/Hello-World" "" eq_refl eq_refl).
Defined.

(** For an input the pattern rejects, [onSubmit] does not call the action
    (the outcome is the same whatever the action would answer): it records
    the invalid-format error, shows no list and no repository name, and stops
    loading. *)
Theorem onSubmit_rejected_input act1 act2 repo token s :
  repoMatch repo = None ->
  Page.onSubmit act1 repo token s = Page.onSubmit act2 repo token s /\
  Page.errorOccurred (Page.onSubmit act1 repo token s) = Some "Invalid repository format provided." /\
  Page.contributors (Page.onSubmit act1 repo token s) = [] /\
  Page.repoName (Page.onSubmit act1 repo token s) = None /\
  Page.isLoading (Page.onSubmit act1 repo token s) = false.
Proof. intro Hm. unfold Page.onSubmit. rewrite Hm. repeat split. Qed.

Lemma onSubmit_rejected_input_witness :
  Page.onSubmit (fun _ _ => Ok (Success [])) "octocat/Hello World" "t" Page.initial
  = Page.onSubmit (fun _ _ => Ok (Failure "x")) "octocat/Hello World" "t" Page.initial /\
  Page.errorOccurred (Page.onSubmit (fun _ _ => Ok (Success [])) "octocat/Hello World" "t" Page.initial)
  = Some "Invalid repository format provided." /\
  Page.contributors (Page.onSubmit (fun _ _ => Ok (Success [])) "octocat/Hello World" "t" Page.initial) = [] /\
  Page.repoName (Page.onSubmit (fun _ _ => Ok (Success [])) "octocat/Hello World" "t" Page.initial) = None /\
  Page.isLoading (Page.onSubmit (fun _ _ => Ok (Success [])) "octocat/Hello World" "t" Page.initial) = false.
Proof.
  exact (onSubmit_rejected_input (fun _ _ => Ok (Success [])) (fun _ _ => Ok (Failure "x"))
           "octocat/Hello World" "t" Page.initial eq_refl).
Defined.
